(** * local-cache: the cache matcher and the save / restore pipelines

    A shallow embedding of [src/cache.ts].  Pure helpers ([checkKey],
    [checkPaths], [filterCacheFiles], [locateCacheFile]) are plain
    functions; [saveCache] and [restoreCache] are written in a small
    state-and-exception monad over a world made of the file system and
    the trace of the effects performed so far.

    JavaScript strings are represented by [string], one character per
    code unit.  [mtimeMs] is a finite double in the source; only its
    order and its truthiness are ever used, so it is an integer here. *)

From Stdlib Require Import List String Ascii ZArith Bool Lia DecimalString.
From Stdlib Require Import Sorted Permutation.
Import ListNotations.

Local Open Scope string_scope.
Local Open Scope list_scope.
Local Open Scope Z_scope.

Infix "+++" := String.append (at level 60, right associativity).

(* ------------------------------------------------------------------ *)
(** ** Strings as the source uses them *)

(** [s.indexOf(search)], scanning from position [pos] of the original
    string: the first position at which [search] starts, or [-1]. *)
Fixpoint indexOf_from (s search : string) (pos : Z) : Z :=
  if String.prefix search s then pos
  else match s with
       | EmptyString => -1
       | String _ s' => indexOf_from s' search (pos + 1)
       end.

Definition indexOf (s search : string) : Z := indexOf_from s search 0.

(** What "contains as a substring" means. *)
Definition is_substring (search s : string) : Prop :=
  exists before after, s = before +++ search +++ after.

(** [/^[^,]*$/.test(key)]: every code unit differs from the comma. *)
Definition regex_no_comma (key : string) : bool :=
  forallb (fun c => negb (Ascii.eqb c ","%char)) (list_ascii_of_string key).

(** [xs.join(sep)]. *)
Fixpoint join (sep : string) (xs : list string) : string :=
  match xs with
  | [] => ""
  | [x] => x
  | x :: rest => x +++ sep +++ join sep rest
  end.

(** Decimal rendering of an array length. *)
Definition show_nat (n : nat) : string :=
  NilEmpty.string_of_uint (Nat.to_uint n).

(** The double quote and the line feed, which a literal cannot hold. *)
Definition dquote : string := String (ascii_of_nat 34) EmptyString.
Definition newline : string := String (ascii_of_nat 10) EmptyString.

(** A string is truthy when it is not empty. *)
Definition truthy (s : string) : bool :=
  match s with EmptyString => false | _ => true end.

(* ------------------------------------------------------------------ *)
(** ** Data model *)

(** [fs.Stats], as far as the source reads it.  [mtime] is the rendering
    of the [Date] object interpolated into a log line. *)
Record Stats := mkStats {
  mtimeMs : Z;
  mtime : string;
  size : Z;
  isDirectory : bool
}.

(** [fg.Entry] in object mode. *)
Record Entry := mkEntry {
  name : string;
  path : string;
  stats : option Stats
}.

(** [e.stats?.mtimeMs || 0] *)
Definition mtime_or_0 (e : Entry) : Z :=
  match stats e with
  | Some st => if mtimeMs st =? 0 then 0 else mtimeMs st
  | None => 0
  end.

(** [e.stats?.size || 0] *)
Definition size_or_0 (e : Entry) : Z :=
  match stats e with
  | Some st => if size st =? 0 then 0 else size st
  | None => 0
  end.

Inductive Err :=
| ValidationError (message : string)
| PlainError (message : string)
| ExternalError (rendered : string).

(** [`${err}`] *)
Definition show_err (e : Err) : string :=
  match e with
  | ValidationError m => "ValidationError: " +++ m
  | PlainError m => "Error: " +++ m
  | ExternalError r => r
  end.

Inductive Res (A : Type) :=
| Ok (a : A)
| Throw (e : Err).
Arguments Ok {A} a.
Arguments Throw {A} e.

(** How a call into a library or the operating system ends: with a
    value, or with an error of that library, kept as its rendering.  No
    such error is an instance of the two classes [cache.ts] declares. *)
Inductive Ext (A : Type) :=
| Done (a : A)
| Failed (rendered : string).
Arguments Done {A} a.
Arguments Failed {A} rendered.

Definition settle {A} (x : Ext A) : Res A :=
  match x with
  | Done a => Ok a
  | Failed rendered => Throw (ExternalError rendered)
  end.

(* ------------------------------------------------------------------ *)
(** ** Validation *)

Definition checkPaths (paths : list string) : Res unit :=
  if (List.length paths =? 0)%nat then
    Throw (ValidationError
      "Path Validation Error: At least one directory or file path is required")
  else Ok tt.

Definition checkKey (key : string) : Res unit :=
  if (255 <? String.length key)%nat then
    Throw (ValidationError
      ("Key Validation Error: " +++ key +++ " cannot be larger than 255 characters."))
  else if negb (regex_no_comma key) then
    Throw (ValidationError
      ("Key Validation Error: " +++ key +++ " cannot contain commas."))
  else Ok tt.

(* ------------------------------------------------------------------ *)
(** ** The cache file matcher *)

(** The inner loop of [filterCacheFiles]: push every cache file whose
    name contains the matcher onto the shared array. *)
Definition push_matching (filenameMatcher : string) (cacheFiles : list Entry)
    (potentialCaches : list Entry) : list Entry :=
  fold_left
    (fun acc cacheFile =>
       if negb (indexOf (name cacheFile) filenameMatcher =? -1)
       then acc ++ [cacheFile] else acc)
    cacheFiles potentialCaches.

(** The outer loop, with the array [potentialCaches] threaded through
    the iterations as the source shares it. *)
Fixpoint filterCacheFiles_from (filenameMatchers : list string)
    (cacheFiles potentialCaches : list Entry) : option string * list Entry :=
  match filenameMatchers with
  | [] => (None, potentialCaches)
  | filenameMatcher :: rest =>
      let potentialCaches' :=
        push_matching filenameMatcher cacheFiles potentialCaches in
      if (0 <? List.length potentialCaches')%nat
      then (Some filenameMatcher, potentialCaches')
      else filterCacheFiles_from rest cacheFiles potentialCaches'
  end.

Definition filterCacheFiles (filenameMatchers : list string)
    (cacheFiles : list Entry) : option string * list Entry :=
  filterCacheFiles_from filenameMatchers cacheFiles [].

(** The comparator handed to [sort]. *)
Definition by_mtime (a b : Entry) : Z :=
  let mtimeA := mtime_or_0 a in
  let mtimeB := mtime_or_0 b in
  if mtimeA >? mtimeB then 1 else if mtimeB >? mtimeA then -1 else 0.

(** [Array.prototype.sort] is stable; with a consistent comparator every
    stable sort returns the same array, here built by insertion. *)
Fixpoint sort_insert {A} (cmp : A -> A -> Z) (x : A) (sorted : list A) : list A :=
  match sorted with
  | [] => [x]
  | y :: rest =>
      if cmp x y <=? 0 then x :: sorted else y :: sort_insert cmp x rest
  end.

Definition sort {A} (cmp : A -> A -> Z) (xs : list A) : list A :=
  fold_right (sort_insert cmp) [] xs.

(** [xs.pop()]: the last element, [undefined] on an empty array. *)
Fixpoint pop {A} (xs : list A) : option A :=
  match xs with
  | [] => None
  | [x] => Some x
  | _ :: rest => pop rest
  end.

(** [!key] for [key : string | null]. *)
Definition key_falsy (key : option string) : bool :=
  match key with
  | None => true
  | Some k => negb (truthy k)
  end.

Definition locateCacheFile (filenameMatchers : list string)
    (cacheFiles : list Entry) : option (string * Entry) :=
  let '(key, potentialCaches) := filterCacheFiles filenameMatchers cacheFiles in
  if (List.length potentialCaches =? 0)%nat || key_falsy key then None
  else
    match pop (sort by_mtime potentialCaches), key with
    | Some latestCacheFile, Some k => Some (k, latestCacheFile)
    | _, _ => None
    end.

(* ------------------------------------------------------------------ *)
(** ** The world the two operations run in *)

(** Effects, in the order the operation performs them. *)
Inductive Event :=
| LogInfo (message : string)                       (* core.info *)
| LogWarning (message : string)                    (* core.warning *)
| FgExpand (pattern : string)                      (* fg(pathPattern, ...) *)
| FsStat (target : string)                         (* fs.promises.stat *)
| FgScan (patterns : list string) (dir : string)   (* fg(patterns, {cwd}) *)
| FsMkdir (target : string)                        (* fs.promises.mkdir *)
| ExecCmd (cmd : string).                          (* execAsync *)

(** One [data] event of a child process. *)
Inductive Chunk :=
| Stdout (data : string)
| Stderr (data : string).

(** What [execAsync] hands back: the output the child wrote and how its
    promise settles. *)
Record Promise := mkPromise {
  output : list Chunk;
  settles : Ext unit
}.

(** The collaborators outside [cache.ts]: the libraries it imports, the
    process environment and the file system.  Reads are functions of the
    file system; [fs_mkdir] and [exec] may also change it. *)
Record Platform := mkPlatform {
  FS : Type;
  filenamify : string -> string;
  path_join : string -> string -> string;
  prettyBytes : Z -> string;
  env_CACHE_DIR : option string;
  env_GITHUB_REPOSITORY : option string;
  input_skip_failure : string;
  cwd : string;
  fg_expand : string -> FS -> Ext (list string);
  fs_stat : string -> FS -> Ext Stats;
  fg_scan : list string -> string -> FS -> Ext (list Entry);
  fs_mkdir : string -> FS -> Ext unit * FS;
  exec : string -> FS -> Promise * FS
}.

Record World (P : Platform) := mkWorld {
  fs : FS P;
  trace : list Event
}.
Arguments mkWorld {P} fs trace.
Arguments fs {P} w.
Arguments trace {P} w.

(** [String.prototype.trim] on 8-bit code units. *)
Definition is_space (c : ascii) : bool :=
  let n := nat_of_ascii c in
  ((9 <=? n) && (n <=? 13))%nat || (n =? 32)%nat || (n =? 160)%nat.

Fixpoint trim_start (s : string) : string :=
  match s with
  | EmptyString => EmptyString
  | String c s' => if is_space c then trim_start s' else s
  end.

Fixpoint trim_end (s : string) : string :=
  match s with
  | EmptyString => EmptyString
  | String c s' =>
      match trim_end s' with
      | EmptyString => if is_space c then EmptyString else String c EmptyString
      | t => String c t
      end
  end.

Definition trim (s : string) : string := trim_end (trim_start s).

(** [a || fallback] for an environment variable. *)
Definition or_default (a : option string) (fallback : string) : string :=
  match a with
  | Some v => if truthy v then v else fallback
  | None => fallback
  end.

Module Exn.

(** State (the world) and exceptions. *)
Definition M (P : Platform) (A : Type) : Type := World P -> Res A * World P.

Definition ret {P A} (a : A) : M P A := fun w => (Ok a, w).

Definition throw {P A} (e : Err) : M P A := fun w => (Throw e, w).

Definition bind {P A B} (m : M P A) (k : A -> M P B) : M P B :=
  fun w =>
    match m w with
    | (Ok a, w') => k a w'
    | (Throw e, w') => (Throw e, w')
    end.

(** [try { m } catch (err) { handler err }] *)
Definition try_catch {P A} (m : M P A) (handler : Err -> M P A) : M P A :=
  fun w =>
    match m w with
    | (Ok a, w') => (Ok a, w')
    | (Throw e, w') => handler e w'
    end.

Definition lift {P A} (r : Res A) : M P A := fun w => (r, w).

Definition emit {P} (ev : Event) : M P unit :=
  fun w => (Ok tt, mkWorld (fs w) (trace w ++ [ev])).

End Exn.
Import Exn.

Declare Scope exn_scope.
Delimit Scope exn_scope with exn.
Notation "x <- m ;; k" := (bind m (fun x => k))
  (at level 61, m at next level, right associativity) : exn_scope.
Notation "m ;; k" := (bind m (fun _ => k))
  (at level 61, right associativity) : exn_scope.
Local Open Scope exn_scope.

(* ------------------------------------------------------------------ *)
(** ** The operations of [cache.ts] *)

Section Operations.

Variable P : Platform.

Definition info (message : string) : M P unit := emit (LogInfo message).

Definition warning (message : string) : M P unit := emit (LogWarning message).

(** [fg(pathPattern, { onlyDirectories: false, suppressErrors: true,
    followSymbolicLinks: false })] *)
Definition fg (pathPattern : string) : M P (list string) :=
  fun w => (settle (fg_expand P pathPattern (fs w)),
            mkWorld (fs w) (trace w ++ [FgExpand pathPattern])).

Definition stat (target : string) : M P Stats :=
  fun w => (settle (fs_stat P target (fs w)),
            mkWorld (fs w) (trace w ++ [FsStat target])).

(** [fg(patterns, { cwd, objectMode: true, onlyFiles: true, stats: true,
    unique: true })] *)
Definition fg_entries (patterns : list string) (dir : string) : M P (list Entry) :=
  fun w => (settle (fg_scan P patterns dir (fs w)),
            mkWorld (fs w) (trace w ++ [FgScan patterns dir])).

(** [fs.promises.mkdir(target, { recursive: true })] *)
Definition mkdir (target : string) : M P unit :=
  fun w => let '(r, fs') := fs_mkdir P target (fs w) in
           (settle r, mkWorld fs' (trace w ++ [FsMkdir target])).

(** [execAsync(cmd)]: the child runs on the file system; the promise
    holds what it wrote and how it ended. *)
Definition execAsync (cmd : string) : M P Promise :=
  fun w => let '(promise, fs') := exec P cmd (fs w) in
           (Ok promise, mkWorld fs' (trace w ++ [ExecCmd cmd])).

Definition on_data (c : Chunk) : list Event :=
  match c with
  | Stdout data => [LogInfo (trim data)]
  | Stderr data => if truthy data then [LogWarning (trim data)] else []
  end.

Definition streamOutputUntilResolved (promise : Promise) : M P unit :=
  fun w => (settle (settles promise),
            mkWorld (fs w) (trace w ++ flat_map on_data (output promise))).

Definition getCacheDirPath : string :=
  path_join P (or_default (env_CACHE_DIR P) "/media/cache/")
              (or_default (env_GITHUB_REPOSITORY P) "").

(** [core.getInput("skip-failure") || false], as a condition. *)
Definition skipFailure : bool := truthy (input_skip_failure P).

(** The candidate list of [restoreCache]. *)
Definition filenameMatchers_of (primaryKey : string)
    (restoreKeys : option (list string)) : list string :=
  map (filenamify P)
      (match restoreKeys with
       | Some (r :: rs) => primaryKey :: r :: rs
       | _ => [primaryKey]
       end).

Definition show_mtime (e : Entry) : string :=
  match stats e with
  | Some st => mtime st
  | None => "undefined"
  end.

Definition restoreCache (paths : list string) (primaryKey : string)
    (restoreKeys : option (list string)) : M P (option string) :=
  lift (checkKey primaryKey) ;;
  lift (checkPaths paths) ;;
  info ("Restoring cache for " +++ show_nat (List.length paths)
        +++ " path pattern(s): " +++ join ", " paths) ;;
  let cacheDir := getCacheDirPath in
  let filenameMatchers := filenameMatchers_of primaryKey restoreKeys in
  let patterns := map (fun matcher => matcher +++ "*") filenameMatchers in
  cacheFiles <- fg_entries patterns cacheDir ;;
  match locateCacheFile filenameMatchers cacheFiles with
  | None => ret None
  | Some (key, cacheFile) =>
      let cachePath := path_join P cacheDir (path cacheFile) in
      let baseDir := cwd P in
      let cmd := "tar -I zstdmt -xf " +++ dquote +++ cachePath +++ dquote
                 +++ " -C " +++ dquote +++ baseDir +++ dquote in
      info (join newline
              ["Restoring cache: " +++ name cacheFile;
               "Created: " +++ show_mtime cacheFile;
               "Size: " +++ prettyBytes P (size_or_0 cacheFile)]) ;;
      info "Extracting cache to project root..." ;;
      createCacheDirPromise <- execAsync cmd ;;
      try_catch
        (streamOutputUntilResolved createCacheDirPromise ;;
         info "Cache restored successfully")
        (fun err =>
           warning ("Error running tar: " +++ show_err err) ;;
           if negb skipFailure then throw err
           else
             cleanBadFile <- execAsync ("rm -rf " +++ cachePath) ;;
             streamOutputUntilResolved cleanBadFile) ;;
      ret (Some key)
  end.

(** One iteration of the expansion loop of [saveCache]. *)
Definition expand_one (pathPattern : string) (expandedPaths : list string)
    : M P (list string) :=
  try_catch
    (matches <- fg pathPattern ;;
     if (0 <? List.length matches)%nat then
       info (pathPattern +++ " -> " +++ show_nat (List.length matches)
             +++ " match(es)") ;;
       ret (expandedPaths ++ matches)
     else
       try_catch
         (st <- stat pathPattern ;;
          info (pathPattern +++ " -> found ("
                +++ (if isDirectory st then "directory" else "file") +++ ")") ;;
          ret (expandedPaths ++ [pathPattern]))
         (fun _ =>
            info (pathPattern +++ " -> not found (skipping)") ;;
            ret expandedPaths))
    (fun err =>
       warning ("Error expanding path " +++ pathPattern +++ ": "
                +++ show_err err) ;;
       ret expandedPaths).

Fixpoint expand_paths (paths : list string) (expandedPaths : list string)
    : M P (list string) :=
  match paths with
  | [] => ret expandedPaths
  | pathPattern :: rest =>
      expandedPaths' <- expand_one pathPattern expandedPaths ;;
      expand_paths rest expandedPaths'
  end.

Definition saveCache (paths : list string) (key : string) : M P Z :=
  lift (checkPaths paths) ;;
  lift (checkKey key) ;;
  info ("Expanding " +++ show_nat (List.length paths) +++ " path pattern(s)...") ;;
  expandedPaths <- expand_paths paths [] ;;
  if (List.length expandedPaths =? 0)%nat then
    throw (PlainError "No valid paths found to cache after expansion")
  else
    info ("Caching " +++ show_nat (List.length expandedPaths) +++ " path(s): "
          +++ join ", " expandedPaths) ;;
    let cacheDir := getCacheDirPath in
    let cacheName := filenamify P key +++ ".tar.zst" in
    let cachePath := path_join P cacheDir cacheName in
    let baseDir := cwd P in
    mkdir cacheDir ;;
    let pathsForTar :=
      join " " (map (fun p => dquote +++ p +++ dquote) expandedPaths) in
    let cmd := "tar -I zstdmt -cf " +++ dquote +++ cachePath +++ dquote
               +++ " -C " +++ dquote +++ baseDir +++ dquote
               +++ " " +++ pathsForTar in
    info ("Creating cache archive: " +++ cacheName) ;;
    createCacheDirPromise <- execAsync cmd ;;
    try_catch
      (streamOutputUntilResolved createCacheDirPromise ;;
       try_catch
         (st <- stat cachePath ;;
          info ("Cache saved successfully (" +++ prettyBytes P (size st) +++ ")"))
         (fun _ => info "Cache saved successfully"))
      (fun err =>
         warning ("Error running tar: " +++ show_err err) ;;
         cleanBadFile <- execAsync ("rm -rf " +++ cachePath) ;;
         streamOutputUntilResolved cleanBadFile ;;
         if negb skipFailure then throw err else ret tt) ;;
    ret 420.

End Operations.

Arguments info {P} message.
Arguments warning {P} message.
Arguments fg {P} pathPattern.
Arguments stat {P} target.
Arguments fg_entries {P} patterns dir.
Arguments mkdir {P} target.
Arguments execAsync {P} cmd.
Arguments streamOutputUntilResolved {P} promise.

(* ------------------------------------------------------------------ *)
(** ** A small concrete platform, for running the operations *)

Module Sample.

(** The bundles of the store directory, the working tree (each path with
    whether it is a directory) and whether [tar] succeeds. *)
Record Disk := mkDisk {
  bundles : list Entry;
  tree : list (string * bool);
  tar_works : bool
}.

(** A literal pattern matches itself when it names a plain file; the
    empty pattern is refused, as fast-glob refuses it. *)
Definition glob (pattern : string) (d : Disk) : Ext (list string) :=
  if truthy pattern then
    Done (if existsb (fun f => String.eqb (fst f) pattern && negb (snd f)) (tree d)
          then [pattern] else [])
  else Failed
         "TypeError: Patterns must be a string (non empty) or an array of strings".

Definition lstat (target : string) (d : Disk) : Ext Stats :=
  match find (fun f => String.eqb (fst f) target) (tree d) with
  | Some f => Done (mkStats 1 "Thu Jan 01 1970" 0 (snd f))
  | None => Failed
              ("Error: ENOENT: no such file or directory, stat '" +++ target +++ "'")
  end.

Definition drop_star (pattern : string) : string :=
  substring 0 (String.length pattern - 1) pattern.

Definition scan (patterns : list string) (dir : string) (d : Disk)
    : Ext (list Entry) :=
  Done (filter
        (fun e => existsb (fun pat => String.prefix (drop_star pat) (name e)) patterns)
        (bundles d)).

Definition make_dir (target : string) (d : Disk) : Ext unit * Disk := (Done tt, d).

(** [tar] leaves the disk alone and fails when the disk says so; any
    other command is an [rm -rf] of the bundle it names. *)
Definition run (cmd : string) (d : Disk) : Promise * Disk :=
  if String.prefix "tar " cmd then
    if tar_works d then (mkPromise [] (Done tt), d)
    else (mkPromise [Stderr "tar: Unexpected EOF in archive"]
            (Failed ("Error: Command failed: " +++ cmd)), d)
  else
    (mkPromise [] (Done tt),
     mkDisk (filter (fun e => indexOf cmd (path e) =? -1) (bundles d))
            (tree d) (tar_works d)).

Definition platform (skip_failure : string) : Platform :=
  mkPlatform Disk (fun key => key) (fun a b => a +++ "/" +++ b)
    (fun _ => "1 kB") (Some "/cache") (Some "repo") skip_failure "/work"
    glob lstat scan make_dir run.

(** A store listing that returns every bundle whatever the patterns
    are; a glob whose patterns hold wildcards of their own, as the
    pattern of a key with brackets does, returns names that do not
    contain the key. *)
Definition list_all (patterns : list string) (dir : string) (d : Disk)
    : Ext (list Entry) :=
  Done (bundles d).

Definition listing_platform (skip_failure : string) : Platform :=
  mkPlatform Disk (fun key => key) (fun a b => a +++ "/" +++ b)
    (fun _ => "1 kB") (Some "/cache") (Some "repo") skip_failure "/work"
    glob lstat list_all make_dir run.

Definition bundle (file : string) (mtime_ms : Z) : Entry :=
  mkEntry file file (Some (mkStats mtime_ms "Thu Jan 01 1970" 1024 false)).

Definition start (skip_failure : string) (d : Disk) : World (platform skip_failure) :=
  mkWorld (d : FS (platform skip_failure)) [].

Definition listing_start (skip_failure : string) (d : Disk)
    : World (listing_platform skip_failure) :=
  mkWorld (d : FS (listing_platform skip_failure)) [].

(** A store with one bundle, a working tree with one file and one
    directory, and a [tar] that fails. *)
Definition broken_tar : Disk :=
  mkDisk [bundle "k.tar.zst" 5] [("a.txt", false); ("dir", true)] false.

Definition working_tar : Disk :=
  mkDisk [bundle "k.tar.zst" 5] [("a.txt", false); ("dir", true)] true.

(** Platforms on which the store scan, [mkdir] or [rm -rf] can fail. *)
Definition faulty_scan (works : bool) (patterns : list string) (dir : string)
    (d : Disk) : Ext (list Entry) :=
  if works then scan patterns dir d
  else Failed "Error: EACCES: permission denied, scandir '/cache/repo'".

Definition faulty_mkdir (works : bool) (target : string) (d : Disk)
    : Ext unit * Disk :=
  if works then (Done tt, d)
  else (Failed "Error: EACCES: permission denied, mkdir '/cache/repo'", d).

Definition faulty_run (rm_works : bool) (cmd : string) (d : Disk)
    : Promise * Disk :=
  if String.prefix "tar " cmd then run cmd d
  else if rm_works then run cmd d
  else (mkPromise [Stderr "rm: cannot remove: Read-only file system"]
          (Failed ("Error: Command failed: " +++ cmd)), d).

Definition faulty (skip_failure : string) (scan_works mkdir_works rm_works : bool)
    : Platform :=
  mkPlatform Disk (fun key => key) (fun a b => a +++ "/" +++ b)
    (fun _ => "1 kB") (Some "/cache") (Some "repo") skip_failure "/work"
    glob lstat (faulty_scan scan_works) (faulty_mkdir mkdir_works)
    (faulty_run rm_works).

Definition faulty_start (skip_failure : string)
    (scan_works mkdir_works rm_works : bool) (d : Disk)
    : World (faulty skip_failure scan_works mkdir_works rm_works) :=
  mkWorld (d : FS (faulty skip_failure scan_works mkdir_works rm_works)) [].

(** A store with an old and a new bundle of one key and a bundle of
    another key. *)
Definition two_saves : Disk :=
  mkDisk [bundle "k.tar.zst" 5; bundle "k-2.tar.zst" 9; bundle "old.tar.zst" 7]
         [("a.txt", false); ("dir", true)] true.

(** A store that holds no bundle yet, with a [tar] that fails. *)
Definition fresh_store : Disk :=
  mkDisk [] [("a.txt", false); ("dir", true)] false.

(** A working tree that holds none of the cached paths, with a [tar]
    that fails. *)
Definition clean_tree : Disk :=
  mkDisk [bundle "k.tar.zst" 5] [] false.

(** A store in which the bundle of the key [k] is the newest of those
    whose name contains [k]. *)
Definition after_save : Disk :=
  mkDisk [bundle "k-1.tar.zst" 5; bundle "k.tar.zst" 9; bundle "old.tar.zst" 7]
         [("a.txt", false); ("dir", true)] true.

End Sample.

(* ------------------------------------------------------------------ *)
(** ** Vocabulary of the statements *)

(** The test of the inner loop of [filterCacheFiles]. *)
Definition name_contains (filenameMatcher : string) (cacheFile : Entry) : bool :=
  negb (indexOf (name cacheFile) filenameMatcher =? -1).

(** What a stable sort by modification time returns: the same entries,
    in non-decreasing order of time, entries of equal time in their
    original order. *)
Definition stable_sort_of (entries sorted : list Entry) : Prop :=
  Permutation entries sorted
  /\ StronglySorted (fun a b => mtime_or_0 a <= mtime_or_0 b) sorted
  /\ forall t, filter (fun e => mtime_or_0 e =? t) sorted
               = filter (fun e => mtime_or_0 e =? t) entries.

(** Events that can change the file system. *)
Definition mutates (ev : Event) : bool :=
  match ev with
  | FsMkdir _ | ExecCmd _ => true
  | _ => false
  end.

Definition is_warning (ev : Event) : bool :=
  match ev with
  | LogWarning _ => true
  | _ => false
  end.

(** Events [restoreCache] can perform: log lines, the scan of the store
    and child processes. *)
Definition restore_event (ev : Event) : bool :=
  match ev with
  | LogInfo _ | LogWarning _ | FgScan _ _ | ExecCmd _ => true
  | _ => false
  end.

(** Events [saveCache] can perform: everything but a scan of the store. *)
Definition save_event (ev : Event) : bool :=
  match ev with
  | FgScan _ _ => false
  | _ => true
  end.

(** The cleanup of a bundle: an [rm -rf] child process. *)
Definition is_cleanup (ev : Event) : bool :=
  match ev with
  | ExecCmd cmd => String.prefix "rm -rf " cmd
  | _ => false
  end.

Section Expansion.

Variable P : Platform.
Variable disk : FS P.

(** What glob expansion of one spec yields; nothing when it throws. *)
Definition glob_matches (pathPattern : string) : list string :=
  match fg_expand P pathPattern disk with
  | Done matches => matches
  | Failed _ => []
  end.

Definition glob_throws (pathPattern : string) : bool :=
  match fg_expand P pathPattern disk with
  | Done _ => false
  | Failed _ => true
  end.

Definition literal_exists (pathPattern : string) : bool :=
  match fs_stat P pathPattern disk with
  | Done _ => true
  | Failed _ => false
  end.

(** The contribution of one spec to the expanded list. *)
Definition expansion_of (pathPattern : string) : list string :=
  match glob_matches pathPattern with
  | [] =>
      if negb (glob_throws pathPattern) && literal_exists pathPattern
      then [pathPattern] else []
  | matches => matches
  end.

(** The log line written for one spec. *)
Definition expansion_log (pathPattern : string) : Event :=
  match fg_expand P pathPattern disk with
  | Failed rendered =>
      LogWarning ("Error expanding path " +++ pathPattern +++ ": " +++ rendered)
  | Done [] =>
      match fs_stat P pathPattern disk with
      | Done st =>
          LogInfo (pathPattern +++ " -> found ("
                   +++ (if isDirectory st then "directory" else "file") +++ ")")
      | Failed _ => LogInfo (pathPattern +++ " -> not found (skipping)")
      end
  | Done matches =>
      LogInfo (pathPattern +++ " -> " +++ show_nat (List.length matches)
               +++ " match(es)")
  end.

(** The effects of one spec: the glob, the [stat] when the glob found
    nothing, and the log line. *)
Definition expansion_events (pathPattern : string) : list Event :=
  FgExpand pathPattern
  :: match fg_expand P pathPattern disk with
     | Done [] => [FsStat pathPattern]
     | _ => []
     end
  ++ [expansion_log pathPattern].

End Expansion.

Definition has_comma (key : string) : Prop :=
  In ","%char (list_ascii_of_string key).

Section Shapes.

Variable P : Platform.

(** The first line [restoreCache] logs, the only place where it reads
    more of [paths] than their number being positive. *)
Definition restore_greeting (paths : list string) : Event :=
  LogInfo ("Restoring cache for " +++ show_nat (List.length paths)
           +++ " path pattern(s): " +++ join ", " paths).

Definition restore_patterns (primaryKey : string)
    (restoreKeys : option (list string)) : list string :=
  map (fun matcher => matcher +++ "*") (filenameMatchers_of P primaryKey restoreKeys).

(** The command that unpacks a bundle. *)
Definition extract_cmd (cacheFile : Entry) : string :=
  "tar -I zstdmt -xf " +++ dquote
  +++ path_join P (getCacheDirPath P) (path cacheFile) +++ dquote
  +++ " -C " +++ dquote +++ cwd P +++ dquote.

(** [restoreCache] from the scan of the store on: the part of its body
    in which [paths] does not occur. *)
Definition restore_lookup (primaryKey : string)
    (restoreKeys : option (list string)) : M P (option string) :=
  let cacheDir := getCacheDirPath P in
  let filenameMatchers := filenameMatchers_of P primaryKey restoreKeys in
  let patterns := map (fun matcher => matcher +++ "*") filenameMatchers in
  cacheFiles <- fg_entries patterns cacheDir ;;
  match locateCacheFile filenameMatchers cacheFiles with
  | None => ret None
  | Some (key, cacheFile) =>
      let cachePath := path_join P cacheDir (path cacheFile) in
      let baseDir := cwd P in
      let cmd := "tar -I zstdmt -xf " +++ dquote +++ cachePath +++ dquote
                 +++ " -C " +++ dquote +++ baseDir +++ dquote in
      info (join newline
              ["Restoring cache: " +++ name cacheFile;
               "Created: " +++ show_mtime cacheFile;
               "Size: " +++ prettyBytes P (size_or_0 cacheFile)]) ;;
      info "Extracting cache to project root..." ;;
      createCacheDirPromise <- execAsync cmd ;;
      try_catch
        (streamOutputUntilResolved createCacheDirPromise ;;
         info "Cache restored successfully")
        (fun err =>
           warning ("Error running tar: " +++ show_err err) ;;
           if negb (skipFailure P) then throw err
           else
             cleanBadFile <- execAsync ("rm -rf " +++ cachePath) ;;
             streamOutputUntilResolved cleanBadFile) ;;
      ret (Some key)
  end.

(** The first line [saveCache] logs. *)
Definition save_greeting (paths : list string) : Event :=
  LogInfo ("Expanding " +++ show_nat (List.length paths) +++ " path pattern(s)...").

(** Where [saveCache] writes the bundle of a key. *)
Definition bundle_path (key : string) : string :=
  path_join P (getCacheDirPath P) (filenamify P key +++ ".tar.zst").

(** The command that packs the expanded paths. *)
Definition pack_cmd (key : string) (expandedPaths : list string) : string :=
  "tar -I zstdmt -cf " +++ dquote +++ bundle_path key +++ dquote
  +++ " -C " +++ dquote +++ cwd P +++ dquote
  +++ " " +++ join " " (map (fun p => dquote +++ p +++ dquote) expandedPaths).

(** The command that removes a bundle. *)
Definition cleanup_cmd (cachePath : string) : string := "rm -rf " +++ cachePath.

(** [saveCache] from the non-empty expanded list on. *)
Definition save_pack (key : string) (expandedPaths : list string) : M P Z :=
  info ("Caching " +++ show_nat (List.length expandedPaths) +++ " path(s): "
        +++ join ", " expandedPaths) ;;
  let cacheDir := getCacheDirPath P in
  let cacheName := filenamify P key +++ ".tar.zst" in
  let cachePath := path_join P cacheDir cacheName in
  let baseDir := cwd P in
  mkdir cacheDir ;;
  let pathsForTar :=
    join " " (map (fun p => dquote +++ p +++ dquote) expandedPaths) in
  let cmd := "tar -I zstdmt -cf " +++ dquote +++ cachePath +++ dquote
             +++ " -C " +++ dquote +++ baseDir +++ dquote
             +++ " " +++ pathsForTar in
  info ("Creating cache archive: " +++ cacheName) ;;
  createCacheDirPromise <- execAsync cmd ;;
  try_catch
    (streamOutputUntilResolved createCacheDirPromise ;;
     try_catch
       (st <- stat cachePath ;;
        info ("Cache saved successfully (" +++ prettyBytes P (size st) +++ ")"))
       (fun _ => info "Cache saved successfully"))
    (fun err =>
       warning ("Error running tar: " +++ show_err err) ;;
       cleanBadFile <- execAsync ("rm -rf " +++ cachePath) ;;
       streamOutputUntilResolved cleanBadFile ;;
       if negb (skipFailure P) then throw err else ret tt) ;;
  ret 420.

End Shapes.

Ltac run_monad :=
  unfold info, warning, fg, stat, fg_entries, mkdir, execAsync,
    streamOutputUntilResolved, bind, try_catch, lift, ret, throw, emit.

(* ------------------------------------------------------------------ *)
(** ** Substring containment *)

Lemma prefix_true_iff (p s : string) :
  String.prefix p s = true <-> exists rest, s = p +++ rest.
Proof.
  revert s; induction p as [|c p IH]; intros s; simpl.
  - split; [intros _; now exists s | now destruct s].
  - destruct s as [|d s]; simpl.
    + split; [discriminate | intros [rest H]; discriminate].
    + destruct (ascii_dec c d) as [->|Hne].
      * rewrite IH; split; intros [rest H]; exists rest.
        -- now rewrite H.
        -- now injection H.
      * split; [discriminate | intros [rest H]; injection H; congruence].
Qed.

Lemma indexOf_from_found (s search : string) (pos : Z) :
  0 <= pos ->
  (indexOf_from s search pos <> -1 <-> is_substring search s).
Proof.
  revert pos; induction s as [|c s IH]; intros pos Hpos;
    cbn [indexOf_from];
    match goal with |- context [String.prefix search ?t] =>
      destruct (String.prefix search t) eqn:E end.
  - split; [intros _ | lia].
    apply prefix_true_iff in E as [rest E]. exists "", rest. exact E.
  - split; [congruence|].
    intros (before & after & H). exfalso.
    destruct before; simpl in H; [|discriminate].
    assert (String.prefix search "" = true)
      by (apply prefix_true_iff; now exists after).
    congruence.
  - split; [intros _ | lia].
    apply prefix_true_iff in E as [rest E]. exists "", rest. exact E.
  - rewrite IH by lia. split.
    + intros (before & after & H). exists (String c before), after.
      simpl. now rewrite H.
    + intros (before & after & H). destruct before as [|d before]; simpl in H.
      * assert (String.prefix search (String c s) = true)
          by (apply prefix_true_iff; now exists after).
        congruence.
      * injection H as _ H. now exists before, after.
Qed.

Lemma name_contains_iff (filenameMatcher : string) (cacheFile : Entry) :
  name_contains filenameMatcher cacheFile = true
  <-> is_substring filenameMatcher (name cacheFile).
Proof.
  unfold name_contains, indexOf.
  rewrite <- (indexOf_from_found _ _ 0) by lia.
  rewrite negb_true_iff, Z.eqb_neq. reflexivity.
Qed.

(* ------------------------------------------------------------------ *)
(** ** The matcher *)

Lemma push_matching_filter (filenameMatcher : string)
    (cacheFiles potentialCaches : list Entry) :
  push_matching filenameMatcher cacheFiles potentialCaches
  = potentialCaches ++ filter (name_contains filenameMatcher) cacheFiles.
Proof.
  unfold push_matching. revert potentialCaches.
  induction cacheFiles as [|f fs' IH]; intros acc; simpl.
  - now rewrite app_nil_r.
  - rewrite IH. unfold name_contains.
    destruct (negb (indexOf (name f) filenameMatcher =? -1)); [|reflexivity].
    now rewrite <- app_assoc.
Qed.

Lemma filter_nil_iff {A} (f : A -> bool) (l : list A) :
  filter f l = [] <-> forall x, In x l -> f x = false.
Proof.
  induction l as [|a l IH]; simpl.
  - split; [intros _ x [] | reflexivity].
  - destruct (f a) eqn:E.
    + split; [discriminate|]. intros H. specialize (H a (or_introl eq_refl)). congruence.
    + rewrite IH. split.
      * intros H x [<-|Hx]; auto.
      * intros H x Hx. apply H. now right.
Qed.

Lemma filterCacheFiles_cons (m : string) (rest : list string) (cacheFiles : list Entry) :
  filterCacheFiles (m :: rest) cacheFiles
  = match filter (name_contains m) cacheFiles with
    | [] => filterCacheFiles rest cacheFiles
    | hits => (Some m, hits)
    end.
Proof.
  unfold filterCacheFiles. simpl. rewrite push_matching_filter. simpl.
  destruct (filter (name_contains m) cacheFiles); reflexivity.
Qed.

Lemma filterCacheFiles_hit_nonempty (filenameMatchers : list string)
    (cacheFiles : list Entry) (key : string) (potentialCaches : list Entry) :
  filterCacheFiles filenameMatchers cacheFiles = (Some key, potentialCaches) ->
  potentialCaches <> [].
Proof.
  induction filenameMatchers as [|m ms IH]; [discriminate|].
  rewrite filterCacheFiles_cons.
  destruct (filter (name_contains m) cacheFiles) as [|h hits]; [exact IH|].
  intros [= _ <-]. discriminate.
Qed.

Lemma filterCacheFiles_no_match (filenameMatchers : list string)
    (cacheFiles : list Entry) :
  (forall c e, In c filenameMatchers -> In e cacheFiles ->
               ~ is_substring c (name e)) ->
  filterCacheFiles filenameMatchers cacheFiles = (None, []).
Proof.
  induction filenameMatchers as [|m ms IH]; intros H; [reflexivity|].
  rewrite filterCacheFiles_cons.
  assert (E : filter (name_contains m) cacheFiles = []).
  { apply filter_nil_iff. intros e He.
    destruct (name_contains m e) eqn:En; [|reflexivity].
    apply name_contains_iff in En. exfalso. apply (H m e); simpl; auto. }
  rewrite E. apply IH. intros c e Hc. apply H. now right.
Qed.

Lemma locateCacheFile_no_match (filenameMatchers : list string)
    (cacheFiles : list Entry) :
  (forall c e, In c filenameMatchers -> In e cacheFiles ->
               ~ is_substring c (name e)) ->
  locateCacheFile filenameMatchers cacheFiles = None.
Proof.
  intros H. unfold locateCacheFile.
  now rewrite (filterCacheFiles_no_match _ _ H).
Qed.

(** C1.  [filterCacheFiles] returns the first candidate, in list order,
    that some scanned entry's name contains as a substring (anywhere in
    the name, not only at its start), together with exactly the entries
    containing that candidate, in scan order; the candidates after it
    have no influence on the result.  With no matching candidate it
    returns no key and no entries. *)
Theorem filterCacheFiles_first_match :
  forall (filenameMatchers : list string) (cacheFiles : list Entry),
    match filterCacheFiles filenameMatchers cacheFiles with
    | (Some key, potentialCaches) =>
        exists earlier later,
          filenameMatchers = earlier ++ key :: later
          /\ (forall c e, In c earlier -> In e cacheFiles ->
                          ~ is_substring c (name e))
          /\ potentialCaches <> []
          /\ potentialCaches = filter (name_contains key) cacheFiles
          /\ (forall e, In e potentialCaches
                        <-> In e cacheFiles /\ is_substring key (name e))
          /\ (forall later',
                filterCacheFiles (earlier ++ key :: later') cacheFiles
                = (Some key, potentialCaches))
    | (None, potentialCaches) =>
        potentialCaches = []
        /\ (forall c e, In c filenameMatchers -> In e cacheFiles ->
                        ~ is_substring c (name e))
    end.
Proof.
  intros ms cacheFiles. induction ms as [|m ms IH].
  - simpl. split; [reflexivity | intros c e []].
  - rewrite filterCacheFiles_cons.
    destruct (filter (name_contains m) cacheFiles) as [|h hits] eqn:E.
    + assert (Hm : forall e, In e cacheFiles -> ~ is_substring m (name e)).
      { intros e He Hs. apply name_contains_iff in Hs.
        rewrite (proj1 (filter_nil_iff _ _) E e He) in Hs. discriminate. }
      destruct (filterCacheFiles ms cacheFiles) as [[key|] pcs].
      * destruct IH as (earlier & later & -> & Hearlier & Hne & Hpcs & Hin & Hlater).
        exists (m :: earlier), later.
        split; [reflexivity|]. split.
        { intros c e [<-|Hc] He; auto. }
        split; [exact Hne|]. split; [exact Hpcs|]. split; [exact Hin|].
        intros later'. simpl. rewrite filterCacheFiles_cons, E. apply Hlater.
      * destruct IH as [-> Hnone]. split; [reflexivity|].
        intros c e [<-|Hc] He; auto.
    + exists [], ms.
      split; [reflexivity|]. split; [intros c e []|].
      split; [discriminate|]. split; [now rewrite E|]. split.
      * intros e. rewrite <- E, filter_In, name_contains_iff. reflexivity.
      * intros later'. simpl. now rewrite filterCacheFiles_cons, E.
Qed.

(* ------------------------------------------------------------------ *)
(** ** Sorting by modification time and taking the last *)

Lemma pop_snoc {A} (xs : list A) (x : A) : pop (xs ++ [x]) = Some x.
Proof.
  induction xs as [|y xs IH]; [reflexivity|].
  simpl. rewrite IH. destruct (xs ++ [x]) eqn:E; [|reflexivity].
  now destruct xs.
Qed.

Lemma sort_insert_In {A} (cmp : A -> A -> Z) (x y : A) (sorted : list A) :
  In y (sort_insert cmp x sorted) <-> y = x \/ In y sorted.
Proof.
  induction sorted as [|z sorted IH]; simpl.
  - intuition congruence.
  - destruct (cmp x z <=? 0); simpl; [|rewrite IH]; intuition congruence.
Qed.

Lemma sort_In {A} (cmp : A -> A -> Z) (y : A) (xs : list A) :
  In y (sort cmp xs) <-> In y xs.
Proof.
  induction xs as [|x xs IH]; simpl; [reflexivity|].
  rewrite sort_insert_In, IH. intuition congruence.
Qed.

Lemma by_mtime_le (a b : Entry) :
  by_mtime a b <= 0 <-> mtime_or_0 a <= mtime_or_0 b.
Proof.
  unfold by_mtime.
  destruct (Z.gtb_spec (mtime_or_0 a) (mtime_or_0 b));
    [|destruct (Z.gtb_spec (mtime_or_0 b) (mtime_or_0 a))]; lia.
Qed.

Lemma sort_insert_perm {A} (cmp : A -> A -> Z) (x : A) (sorted : list A) :
  Permutation (x :: sorted) (sort_insert cmp x sorted).
Proof.
  induction sorted as [|y sorted IH]; simpl; [reflexivity|].
  destruct (cmp x y <=? 0); [reflexivity|].
  rewrite perm_swap. now apply perm_skip.
Qed.

Lemma sort_insert_sorted (x : Entry) (sorted : list Entry) :
  StronglySorted (fun a b => mtime_or_0 a <= mtime_or_0 b) sorted ->
  StronglySorted (fun a b => mtime_or_0 a <= mtime_or_0 b)
    (sort_insert by_mtime x sorted).
Proof.
  induction 1 as [|y sorted Hsorted IH Hy]; simpl.
  - constructor; constructor.
  - destruct (Z.leb_spec (by_mtime x y) 0) as [Hle|Hgt].
    + apply by_mtime_le in Hle. constructor; [now constructor|].
      constructor; [exact Hle|].
      rewrite Forall_forall in *. intros z Hz. specialize (Hy z Hz). lia.
    + constructor; [exact IH|].
      rewrite Forall_forall in *. intros z Hz.
      apply sort_insert_In in Hz as [->|Hz]; [|now apply Hy].
      pose proof (by_mtime_le x y). lia.
Qed.

Lemma sort_insert_filter (t : Z) (x : Entry) (sorted : list Entry) :
  filter (fun e => mtime_or_0 e =? t) (sort_insert by_mtime x sorted)
  = filter (fun e => mtime_or_0 e =? t) (x :: sorted).
Proof.
  induction sorted as [|y sorted IH]; [reflexivity|].
  cbn [sort_insert].
  destruct (Z.leb_spec (by_mtime x y) 0) as [Hle|Hgt]; [reflexivity|].
  cbn [filter] in *. rewrite IH.
  destruct (Z.eqb_spec (mtime_or_0 x) t) as [Hx|Hx]; [|reflexivity].
  destruct (Z.eqb_spec (mtime_or_0 y) t) as [Hy|Hy]; [|reflexivity].
  pose proof (by_mtime_le x y). lia.
Qed.

(** The model of [sort] is a stable sort. *)
Lemma sort_stable (entries : list Entry) :
  stable_sort_of entries (sort by_mtime entries).
Proof.
  induction entries as [|x entries (Hperm & Hsorted & Hstable)].
  - repeat split; constructor.
  - repeat split; cbn [sort fold_right].
    + rewrite <- sort_insert_perm. now apply perm_skip.
    + now apply sort_insert_sorted.
    + intros t. rewrite sort_insert_filter. cbn [filter].
      fold (sort by_mtime entries). now rewrite Hstable.
Qed.

Lemma filter_none {A} (f : A -> bool) (l : list A) :
  (forall x, In x l -> f x = false) -> filter f l = [].
Proof. apply filter_nil_iff. Qed.

(** Whatever stable sort the engine runs, the last entry of its result
    is the newest entry, the last in list order among equally new ones. *)
Lemma stable_sort_pop (before after sorted : list Entry) (latest : Entry) :
  stable_sort_of (before ++ latest :: after) sorted ->
  (forall e, In e before -> mtime_or_0 e <= mtime_or_0 latest) ->
  (forall e, In e after -> mtime_or_0 e < mtime_or_0 latest) ->
  pop sorted = Some latest.
Proof.
  intros (Hperm & Hsorted & Hstable) Hbefore Hafter.
  destruct (exists_last (l := sorted)) as (front & top & ->).
  { intros ->. apply Permutation_sym, Permutation_nil in Hperm.
    now destruct before. }
  rewrite pop_snoc. f_equal.
  assert (Htop : In top (before ++ latest :: after)).
  { eapply Permutation_in; [apply Permutation_sym, Hperm|].
    apply in_or_app. right. now left. }
  assert (Hlatest : In latest (front ++ [top])).
  { eapply Permutation_in; [exact Hperm|]. apply in_or_app. right. now left. }
  assert (Hle : mtime_or_0 latest <= mtime_or_0 top).
  { apply in_app_or in Hlatest as [Hin|[->|[]]]; [|lia].
    clear - Hsorted Hin. induction front as [|y front IH]; [contradiction|].
    simpl in Hsorted. inversion Hsorted as [|? ? Hrest Hall]; subst.
    destruct Hin as [->|Hin]; [|now apply IH].
    rewrite Forall_forall in Hall. apply Hall, in_or_app. right. now left. }
  assert (Hge : mtime_or_0 top <= mtime_or_0 latest).
  { apply in_app_or in Htop as [Hin|[->|Hin]].
    - now apply Hbefore.
    - lia.
    - specialize (Hafter top Hin). lia. }
  specialize (Hstable (mtime_or_0 latest)).
  rewrite !filter_app in Hstable. cbn [filter] in Hstable.
  rewrite Z.eqb_refl in Hstable.
  replace (mtime_or_0 top =? mtime_or_0 latest) with true in Hstable
    by (symmetry; apply Z.eqb_eq; lia).
  rewrite (filter_none _ after) in Hstable.
  2: { intros e He. apply Z.eqb_neq. specialize (Hafter e He). lia. }
  apply app_inj_tail in Hstable as [_ Hstable]. exact Hstable.
Qed.

(** Every non-empty list splits at its newest entry, the last among
    equally new ones. *)
Lemma newest_split (entries : list Entry) :
  entries <> [] ->
  exists before latest after,
    entries = before ++ latest :: after
    /\ (forall e, In e before -> mtime_or_0 e <= mtime_or_0 latest)
    /\ (forall e, In e after -> mtime_or_0 e < mtime_or_0 latest).
Proof.
  induction entries as [|x entries IH]; [congruence|]. intros _.
  destruct entries as [|y entries].
  - exists [], x, []. repeat split; intros e [].
  - destruct IH as (before & latest & after & E & Hbefore & Hafter); [discriminate|].
    rewrite E. destruct (Z_le_gt_dec (mtime_or_0 x) (mtime_or_0 latest)) as [Hle|Hgt].
    + exists (x :: before), latest, after. repeat split; auto.
      intros e [<-|He]; auto.
    + exists [], x, (before ++ latest :: after). repeat split.
      * intros e [].
      * intros e He. apply in_app_or in He as [He|[<-|He]].
        -- specialize (Hbefore e He). lia.
        -- lia.
        -- specialize (Hafter e He). lia.
Qed.

(** C2, as the code has it.  When the selected candidate is a non-empty
    string, [locateCacheFile] returns it with an entry of the matched set
    whose modification time ([mtimeMs], a missing stat counting as 0) is
    greatest; among entries with that greatest time it returns the one
    that comes last in list order. *)
Theorem locateCacheFile_latest :
  forall (filenameMatchers : list string) (cacheFiles : list Entry)
         (key : string) (potentialCaches : list Entry),
    filterCacheFiles filenameMatchers cacheFiles = (Some key, potentialCaches) ->
    key <> "" ->
    exists before latest after,
      potentialCaches = before ++ latest :: after
      /\ locateCacheFile filenameMatchers cacheFiles = Some (key, latest)
      /\ (forall e, In e before -> mtime_or_0 e <= mtime_or_0 latest)
      /\ (forall e, In e after -> mtime_or_0 e < mtime_or_0 latest).
Proof.
  intros ms cacheFiles key pcs Hfilter Hkey.
  pose proof (filterCacheFiles_hit_nonempty _ _ _ _ Hfilter) as Hne.
  destruct (newest_split pcs Hne) as (before & latest & after & E & Hb & Ha).
  exists before, latest, after. repeat split; auto.
  unfold locateCacheFile. rewrite Hfilter.
  assert (Hpop : pop (sort by_mtime pcs) = Some latest).
  { apply (stable_sort_pop before after); auto.
    rewrite <- E. apply sort_stable. }
  rewrite Hpop.
  destruct pcs as [|p pcs]; [congruence|].
  destruct key as [|c key]; [congruence|]. reflexivity.
Qed.

Lemma locateCacheFile_latest_witness :
  exists before latest after,
    [Sample.bundle "k-1.tar.zst" 7; Sample.bundle "xk-2.tar.zst" 9;
     Sample.bundle "k-3.tar.zst" 9; Sample.bundle "k-4.tar.zst" 2]
    = before ++ latest :: after
    /\ locateCacheFile ["q"; "k-"; "z"]
         [Sample.bundle "k-1.tar.zst" 7; Sample.bundle "xk-2.tar.zst" 9;
          Sample.bundle "z.tar.zst" 99;
          Sample.bundle "k-3.tar.zst" 9; Sample.bundle "k-4.tar.zst" 2]
       = Some ("k-", latest)
    /\ (forall e, In e before -> mtime_or_0 e <= mtime_or_0 latest)
    /\ (forall e, In e after -> mtime_or_0 e < mtime_or_0 latest).
Proof.
  apply (locateCacheFile_latest ["q"; "k-"; "z"]
           [Sample.bundle "k-1.tar.zst" 7; Sample.bundle "xk-2.tar.zst" 9;
            Sample.bundle "z.tar.zst" 99;
            Sample.bundle "k-3.tar.zst" 9; Sample.bundle "k-4.tar.zst" 2]).
  - reflexivity.
  - discriminate.
Defined.

(** C2 as stated fails for the empty candidate: it is contained in every
    name, so the matched set is not empty, yet nothing is returned. *)
Lemma locateCacheFile_empty_candidate :
  filterCacheFiles [""] [Sample.bundle "k.tar.zst" 5]
  = (Some "", [Sample.bundle "k.tar.zst" 5])
  /\ locateCacheFile [""] [Sample.bundle "k.tar.zst" 5] = None.
Proof. split; reflexivity. Qed.

(* ------------------------------------------------------------------ *)
(** ** Validation *)

Lemma regex_no_comma_iff (key : string) :
  regex_no_comma key = true <-> ~ has_comma key.
Proof.
  unfold regex_no_comma, has_comma. rewrite forallb_forall. split.
  - intros H Hin. specialize (H _ Hin). now rewrite Ascii.eqb_refl in H.
  - intros H c Hc. apply negb_true_iff, Ascii.eqb_neq. congruence.
Qed.

Lemma checkKey_ok_iff (key : string) :
  checkKey key = Ok tt <-> (String.length key <= 255)%nat /\ ~ has_comma key.
Proof.
  unfold checkKey. rewrite <- regex_no_comma_iff.
  destruct (Nat.ltb_spec 255 (String.length key));
    destruct (regex_no_comma key); simpl; split;
    try discriminate; try (intros [? ?]; try lia; discriminate); auto.
Qed.

Lemma checkKey_cases (key : string) :
  checkKey key = Ok tt \/ exists m, checkKey key = Throw (ValidationError m).
Proof.
  unfold checkKey. destruct (255 <? String.length key)%nat; [right; eauto|].
  destruct (regex_no_comma key); simpl; [now left | right; eauto].
Qed.

Lemma checkKey_throws_iff (key : string) :
  (exists m, checkKey key = Throw (ValidationError m))
  <-> (255 < String.length key)%nat \/ has_comma key.
Proof.
  split.
  - intros [m H].
    destruct (Nat.ltb_spec 255 (String.length key)) as [Hlt|Hle]; [now left|].
    right. destruct (regex_no_comma key) eqn:E.
    + assert (checkKey key = Ok tt)
        by (apply checkKey_ok_iff; split; [lia | now apply regex_no_comma_iff]).
      congruence.
    + unfold has_comma. unfold regex_no_comma in E.
      induction (list_ascii_of_string key) as [|c l IH]; simpl in *; [discriminate|].
      destruct (Ascii.eqb_spec c ","%char) as [->|Hne]; [now left|].
      right. apply IH. exact E.
  - intros H. destruct (checkKey_cases key) as [Hok|Hthrow]; [|exact Hthrow].
    apply checkKey_ok_iff in Hok as [Hlen Hcomma]. destruct H; [lia | contradiction].
Qed.

Lemma checkPaths_throws_iff (paths : list string) :
  (exists m, checkPaths paths = Throw (ValidationError m)) <-> paths = [].
Proof.
  unfold checkPaths. destruct paths; simpl; split; eauto; try discriminate.
  intros [m H]. discriminate.
Qed.

Lemma checkPaths_ok_iff (paths : list string) :
  checkPaths paths = Ok tt <-> paths <> [].
Proof.
  unfold checkPaths. destruct paths; simpl; split; congruence.
Qed.

Lemma saveCache_invalid (P : Platform) (paths : list string) (key : string)
    (w : World P) :
  paths = [] \/ (255 < String.length key)%nat \/ has_comma key ->
  exists m, saveCache P paths key w = (Throw (ValidationError m), w).
Proof.
  intros H. unfold saveCache. run_monad.
  destruct paths as [|p paths].
  - simpl. eauto.
  - assert (Hk : exists m, checkKey key = Throw (ValidationError m)).
    { apply checkKey_throws_iff. destruct H as [H|H]; [discriminate | exact H]. }
    destruct Hk as [m Hk]. cbn [checkPaths List.length Nat.eqb].
    rewrite Hk. eauto.
Qed.

Lemma restoreCache_invalid (P : Platform) (paths : list string) (key : string)
    (restoreKeys : option (list string)) (w : World P) :
  paths = [] \/ (255 < String.length key)%nat \/ has_comma key ->
  exists m, restoreCache P paths key restoreKeys w = (Throw (ValidationError m), w).
Proof.
  intros H. unfold restoreCache. run_monad.
  destruct (checkKey_cases key) as [Hok|[m Hk]].
  - rewrite Hok. apply checkKey_ok_iff in Hok as [Hlen Hcomma].
    destruct H as [->|[H|H]]; [simpl; eauto | lia | contradiction].
  - rewrite Hk. eauto.
Qed.

(** C5.  [checkKey] raises a [ValidationError] exactly for keys longer
    than 255 characters or containing a comma, and accepts every other
    key, among them the comma-free keys of 255 characters; [checkPaths]
    raises one exactly for the empty list; [saveCache] and
    [restoreCache] with an empty path list or such a key raise a
    [ValidationError] in the world they were called in: no effect has
    been performed and the file system is the one they started from. *)
Theorem validation_before_any_effect :
  (forall key,
      (exists m, checkKey key = Throw (ValidationError m))
      <-> (255 < String.length key)%nat \/ has_comma key)
  /\ (forall key,
      checkKey key = Ok tt
      <-> ~ ((255 < String.length key)%nat \/ has_comma key))
  /\ (forall key,
      String.length key = 255%nat -> ~ has_comma key -> checkKey key = Ok tt)
  /\ checkKey (string_of_list_ascii (repeat "k"%char 255)) = Ok tt
  /\ (forall paths,
      (exists m, checkPaths paths = Throw (ValidationError m)) <-> paths = [])
  /\ (forall paths, checkPaths paths = Ok tt <-> paths <> [])
  /\ (forall (P : Platform) paths key (w : World P),
      paths = [] \/ (255 < String.length key)%nat \/ has_comma key ->
      exists m, saveCache P paths key w = (Throw (ValidationError m), w))
  /\ (forall (P : Platform) paths key restoreKeys (w : World P),
      paths = [] \/ (255 < String.length key)%nat \/ has_comma key ->
      exists m,
        restoreCache P paths key restoreKeys w = (Throw (ValidationError m), w)).
Proof.
  split; [exact checkKey_throws_iff|].
  split.
  { intros key. rewrite checkKey_ok_iff. split.
    - intros [Hlen Hcomma] [H|H]; [lia | contradiction].
    - intros H. split; [|tauto].
      destruct (Nat.ltb_spec 255 (String.length key)); [tauto | lia]. }
  split.
  { intros key Hlen Hcomma. apply checkKey_ok_iff. split; [lia | exact Hcomma]. }
  split; [vm_compute; reflexivity|].
  split; [exact checkPaths_throws_iff|].
  split; [exact checkPaths_ok_iff|].
  split; [exact saveCache_invalid | exact restoreCache_invalid].
Qed.

(* ------------------------------------------------------------------ *)
(** ** Restore *)

Lemma restoreCache_valid (P : Platform) (paths : list string) (primaryKey : string)
    (restoreKeys : option (list string)) (w : World P) :
  checkKey primaryKey = Ok tt ->
  paths <> [] ->
  restoreCache P paths primaryKey restoreKeys w
  = restore_lookup P primaryKey restoreKeys
      (mkWorld (fs w) (trace w ++ [restore_greeting paths])).
Proof.
  intros Hkey Hpaths. unfold restoreCache, restore_lookup, restore_greeting.
  unfold bind at 1, lift at 1. rewrite Hkey.
  unfold bind at 1, lift at 1.
  destruct paths as [|p paths]; [congruence|].
  cbn [checkPaths List.length Nat.eqb].
  unfold bind at 1, info at 1, emit at 1. reflexivity.
Qed.

(** The lookup never reads the trace: started from the same file system
    it ends with the same result and the same file system, having added
    the same events. *)
Lemma restore_lookup_oblivious (P : Platform) (primaryKey : string)
    (restoreKeys : option (list string)) (disk : FS P) :
  exists result disk' added,
    forall t, restore_lookup P primaryKey restoreKeys (mkWorld disk t)
              = (result, mkWorld disk' (t ++ added)).
Proof.
  unfold restore_lookup. run_monad. cbn [fs trace].
  destruct (fg_scan P _ _ disk) as [cacheFiles|rendered]; cbn [settle].
  2: { do 3 eexists. intros t. reflexivity. }
  destruct (locateCacheFile _ cacheFiles) as [[key cacheFile]|].
  2: { do 3 eexists. intros t. reflexivity. }
  cbn [fs trace].
  destruct (exec P _ disk) as [promise disk1]. cbn [fs trace].
  destruct (settles promise) as [[]|rendered]; cbn [settle fs trace].
  { do 3 eexists. intros t. rewrite <- !app_assoc. reflexivity. }
  destruct (skipFailure P); cbn [negb fs trace].
  2: { do 3 eexists. intros t. rewrite <- !app_assoc. reflexivity. }
  destruct (exec P _ disk1) as [promise2 disk2]. cbn [fs trace].
  destruct (settles promise2) as [[]|rendered2]; cbn [settle];
    do 3 eexists; intros t; rewrite <- !app_assoc; reflexivity.
Qed.

Lemma restoreCache_invalid_key (P : Platform) (paths : list string)
    (primaryKey : string) (restoreKeys : option (list string)) (w : World P)
    (e : Err) :
  checkKey primaryKey = Throw e ->
  restoreCache P paths primaryKey restoreKeys w = (Throw e, w).
Proof.
  intros Hkey. unfold restoreCache. unfold bind at 1, lift at 1.
  now rewrite Hkey.
Qed.

(** The lookup, outcome by outcome of the scan and of the matcher. *)
Lemma restore_lookup_run (P : Platform) (primaryKey : string)
    (restoreKeys : option (list string)) (w : World P) :
  let scanned := FgScan (restore_patterns P primaryKey restoreKeys)
                        (getCacheDirPath P) in
  let run := restore_lookup P primaryKey restoreKeys w in
  match fg_scan P (restore_patterns P primaryKey restoreKeys)
                (getCacheDirPath P) (fs w) with
  | Failed rendered =>
      run = (Throw (ExternalError rendered), mkWorld (fs w) (trace w ++ [scanned]))
  | Done cacheFiles =>
      match locateCacheFile (filenameMatchers_of P primaryKey restoreKeys)
                            cacheFiles with
      | None => run = (Ok None, mkWorld (fs w) (trace w ++ [scanned]))
      | Some (key, cacheFile) =>
          (exists said rest,
              trace (snd run)
              = trace w ++ scanned :: LogInfo said
                  :: LogInfo "Extracting cache to project root..."
                  :: ExecCmd (extract_cmd P cacheFile) :: rest)
          /\ (fst run = Ok (Some key)
              \/ exists rendered, fst run = Throw (ExternalError rendered))
      end
  end.
Proof.
  unfold restore_lookup, restore_patterns, extract_cmd. run_monad.
  cbn [fs trace].
  destruct (fg_scan P _ _ (fs w)) as [cacheFiles|rendered]; cbn [settle];
    [|reflexivity].
  destruct (locateCacheFile _ cacheFiles) as [[key cacheFile]|]; [|reflexivity].
  cbn [fs trace].
  destruct (exec P _ (fs w)) as [promise disk1]. cbn [fs trace].
  destruct (settles promise) as [[]|rendered]; cbn [settle fs trace fst snd].
  { split; [|now left]. do 2 eexists. rewrite <- !app_assoc. reflexivity. }
  destruct (skipFailure P); cbn [negb fs trace fst snd].
  2: { split; [|right; eauto]. do 2 eexists. rewrite <- !app_assoc. reflexivity. }
  destruct (exec P _ disk1) as [promise2 disk2]. cbn [fs trace].
  destruct (settles promise2) as [[]|rendered2]; cbn [settle fst snd trace];
    (split; [do 2 eexists; rewrite <- !app_assoc; reflexivity | eauto]).
Qed.

(** C8.  For two non-empty path lists, the same keys and the same world,
    [restoreCache] ends with the same result (the same matched key, the
    same absence or the same error) and the same file system, and its
    two traces are equal event for event, hence the same scan of the
    store and the same archive command on the same bundle, but for the
    one log line that prints the path list. *)
Theorem restoreCache_ignores_paths :
  forall (P : Platform) (paths1 paths2 : list string) (primaryKey : string)
         (restoreKeys : option (list string)) (w : World P),
    paths1 <> [] ->
    paths2 <> [] ->
    let run1 := restoreCache P paths1 primaryKey restoreKeys w in
    let run2 := restoreCache P paths2 primaryKey restoreKeys w in
    fst run1 = fst run2
    /\ fs (snd run1) = fs (snd run2)
    /\ ((trace (snd run1) = trace w /\ trace (snd run2) = trace w)
        \/ exists rest,
             trace (snd run1) = trace w ++ restore_greeting paths1 :: rest
             /\ trace (snd run2) = trace w ++ restore_greeting paths2 :: rest).
Proof.
  intros P paths1 paths2 primaryKey restoreKeys w H1 H2 run1 run2.
  subst run1 run2.
  destruct (checkKey_cases primaryKey) as [Hok|[m Hthrow]].
  - rewrite !restoreCache_valid by assumption.
    destruct (restore_lookup_oblivious P primaryKey restoreKeys (fs w))
      as (result & disk' & added & Hrun).
    rewrite !Hrun. cbn [fst snd fs trace].
    split; [reflexivity|]. split; [reflexivity|]. right.
    exists added. now rewrite <- !app_assoc.
  - rewrite !(restoreCache_invalid_key _ _ _ _ _ _ Hthrow).
    cbn [fst snd]. auto.
Qed.

Lemma restoreCache_ignores_paths_witness :
  let P := Sample.platform "" in
  let w := Sample.start "" Sample.working_tar in
  let run1 := restoreCache P ["a.txt"] "k" (Some ["old"]) w in
  let run2 := restoreCache P ["dir"; "b.txt"] "k" (Some ["old"]) w in
  fst run1 = fst run2
  /\ fs (snd run1) = fs (snd run2)
  /\ ((trace (snd run1) = trace w /\ trace (snd run2) = trace w)
      \/ exists rest,
           trace (snd run1) = trace w ++ restore_greeting ["a.txt"] :: rest
           /\ trace (snd run2) = trace w ++ restore_greeting ["dir"; "b.txt"] :: rest).
Proof.
  apply (restoreCache_ignores_paths (Sample.platform "") ["a.txt"] ["dir"; "b.txt"]
           "k" (Some ["old"]) (Sample.start "" Sample.working_tar));
    discriminate.
Defined.

(** C9.  With a valid primary key and a non-empty path list, when no
    candidate is contained in the name of any entry the scan of the
    store returned, [restoreCache] returns the absent result, not an
    error; it has logged one line and scanned the store and done nothing
    else: no child process was started and the file system is the one it
    started from. *)
Theorem restoreCache_miss_is_absent :
  forall (P : Platform) (paths : list string) (primaryKey : string)
         (restoreKeys : option (list string)) (w : World P)
         (cacheFiles : list Entry),
    checkKey primaryKey = Ok tt ->
    paths <> [] ->
    fg_scan P (restore_patterns P primaryKey restoreKeys) (getCacheDirPath P) (fs w)
    = Done cacheFiles ->
    (forall c e, In c (filenameMatchers_of P primaryKey restoreKeys) ->
                 In e cacheFiles -> ~ is_substring c (name e)) ->
    restoreCache P paths primaryKey restoreKeys w
    = (Ok None,
       mkWorld (fs w)
         (trace w ++ [restore_greeting paths;
                      FgScan (restore_patterns P primaryKey restoreKeys)
                             (getCacheDirPath P)])).
Proof.
  intros P paths primaryKey restoreKeys w cacheFiles Hkey Hpaths Hscan Hnone.
  rewrite restoreCache_valid by assumption.
  pose proof (restore_lookup_run P primaryKey restoreKeys
                (mkWorld (fs w) (trace w ++ [restore_greeting paths]))) as Hrun.
  cbn [fs trace] in Hrun. cbv zeta in Hrun. rewrite Hscan in Hrun.
  rewrite (locateCacheFile_no_match _ _ Hnone) in Hrun.
  rewrite Hrun. now rewrite <- app_assoc.
Qed.

Lemma restoreCache_miss_is_absent_witness :
  restoreCache (Sample.listing_platform "") ["a.txt"] "zz" (Some ["yy"])
    (Sample.listing_start "" Sample.working_tar)
  = (Ok None,
     mkWorld (fs (Sample.listing_start "" Sample.working_tar))
       (trace (Sample.listing_start "" Sample.working_tar)
        ++ [restore_greeting ["a.txt"];
            FgScan (restore_patterns (Sample.listing_platform "") "zz" (Some ["yy"]))
                   (getCacheDirPath (Sample.listing_platform ""))])).
Proof.
  apply (restoreCache_miss_is_absent (Sample.listing_platform "") ["a.txt"] "zz"
           (Some ["yy"]) (Sample.listing_start "" Sample.working_tar)
           [Sample.bundle "k.tar.zst" 5]).
  - reflexivity.
  - discriminate.
  - reflexivity.
  - intros c e Hc [<-|[]] Hs. apply name_contains_iff in Hs.
    destruct Hc as [<-|[<-|[]]]; discriminate Hs.
Defined.

Lemma filenameMatchers_of_fallbacks (P : Platform) (primaryKey : string)
    (restoreKeys : list string) :
  filenameMatchers_of P primaryKey (Some restoreKeys)
  = map (filenamify P) (primaryKey :: restoreKeys).
Proof. unfold filenameMatchers_of. now destruct restoreKeys. Qed.

(** C10.  [restoreCache] validates the primary key only.  With a valid
    primary key and a non-empty path list it raises no [ValidationError]
    whatever the fallback keys are; every fallback key is passed through
    [filenamify] and becomes a candidate after the primary key, in the
    caller's order: the store is scanned with one pattern per candidate
    and the outcome is the one [locateCacheFile] selects among these
    candidates. *)
Theorem restoreCache_fallbacks_unvalidated :
  forall (P : Platform) (paths : list string) (primaryKey : string)
         (restoreKeys : list string) (w : World P),
    checkKey primaryKey = Ok tt ->
    paths <> [] ->
    let run := restoreCache P paths primaryKey (Some restoreKeys) w in
    let candidates := map (filenamify P) (primaryKey :: restoreKeys) in
    let patterns := map (fun matcher => matcher +++ "*") candidates in
    (forall m, fst run <> Throw (ValidationError m))
    /\ filenameMatchers_of P primaryKey (Some restoreKeys) = candidates
    /\ (exists rest,
          trace (snd run)
          = trace w ++ restore_greeting paths
              :: FgScan patterns (getCacheDirPath P) :: rest)
    /\ (forall cacheFiles,
          fg_scan P patterns (getCacheDirPath P) (fs w) = Done cacheFiles ->
          match locateCacheFile candidates cacheFiles with
          | None => fst run = Ok None
          | Some (key, cacheFile) =>
              In (ExecCmd (extract_cmd P cacheFile)) (trace (snd run))
              /\ (fst run = Ok (Some key)
                  \/ exists rendered, fst run = Throw (ExternalError rendered))
          end).
Proof.
  intros P paths primaryKey restoreKeys w Hkey Hpaths run candidates patterns.
  subst run. rewrite restoreCache_valid by assumption.
  pose proof (restore_lookup_run P primaryKey (Some restoreKeys)
                (mkWorld (fs w) (trace w ++ [restore_greeting paths]))) as Hrun.
  cbv zeta in Hrun. cbn [fs trace] in Hrun.
  unfold restore_patterns in Hrun.
  rewrite filenameMatchers_of_fallbacks in Hrun.
  fold candidates in Hrun. fold patterns in Hrun.
  split; [|split; [apply filenameMatchers_of_fallbacks|]].
  - intros m.
    destruct (fg_scan P patterns (getCacheDirPath P) (fs w)) as [cacheFiles|rendered].
    + destruct (locateCacheFile candidates cacheFiles) as [[key cacheFile]|].
      * destruct Hrun as [_ [H|[rendered H]]]; rewrite H; discriminate.
      * rewrite Hrun. discriminate.
    + rewrite Hrun. discriminate.
  - destruct (fg_scan P patterns (getCacheDirPath P) (fs w)) as [cacheFiles|rendered].
    + split.
      * destruct (locateCacheFile candidates cacheFiles) as [[key cacheFile]|].
        -- destruct Hrun as [(said & rest & Htrace) _]. rewrite Htrace.
           rewrite <- app_assoc. eexists. reflexivity.
        -- rewrite Hrun. cbn [snd trace]. rewrite <- app_assoc.
           exists []. reflexivity.
      * intros cacheFiles' [= <-].
        destruct (locateCacheFile candidates cacheFiles) as [[key cacheFile]|].
        -- destruct Hrun as [(said & rest & Htrace) Hres]. split; [|exact Hres].
           rewrite Htrace. apply in_or_app. right. simpl. auto.
        -- now rewrite Hrun.
    + split; [|discriminate].
      rewrite Hrun. cbn [snd trace]. rewrite <- app_assoc. exists []. reflexivity.
Qed.

Lemma restoreCache_fallbacks_unvalidated_witness :
  let P := Sample.platform "" in
  let w := Sample.start "" Sample.working_tar in
  let long := string_of_list_ascii (repeat "k"%char 300) in
  let run := restoreCache P ["a.txt"] "zz" (Some [long; "a,b"; "k"]) w in
  let candidates := map (filenamify P) ["zz"; long; "a,b"; "k"] in
  let patterns := map (fun matcher => matcher +++ "*") candidates in
  (forall m, fst run <> Throw (ValidationError m))
  /\ filenameMatchers_of P "zz" (Some [long; "a,b"; "k"]) = candidates
  /\ (exists rest,
        trace (snd run)
        = trace w ++ restore_greeting ["a.txt"]
            :: FgScan patterns (getCacheDirPath P) :: rest)
  /\ (forall cacheFiles,
        fg_scan P patterns (getCacheDirPath P) (fs w) = Done cacheFiles ->
        match locateCacheFile candidates cacheFiles with
        | None => fst run = Ok None
        | Some (key, cacheFile) =>
            In (ExecCmd (extract_cmd P cacheFile)) (trace (snd run))
            /\ (fst run = Ok (Some key)
                \/ exists rendered, fst run = Throw (ExternalError rendered))
        end).
Proof.
  apply (restoreCache_fallbacks_unvalidated (Sample.platform "") ["a.txt"] "zz"
           [string_of_list_ascii (repeat "k"%char 300); "a,b"; "k"]
           (Sample.start "" Sample.working_tar)).
  - reflexivity.
  - discriminate.
Defined.

(** On the sample platform the fallback ["k"], listed after an overlong
    key and a key with a comma, is the candidate that hits. *)
Lemma restoreCache_invalid_fallbacks_hit :
  fst (restoreCache (Sample.platform "") ["a.txt"] "zz"
         (Some [string_of_list_ascii (repeat "k"%char 300); "a,b"; "k"])
         (Sample.start "" Sample.working_tar))
  = Ok (Some "k").
Proof. vm_compute. reflexivity. Qed.

(* ------------------------------------------------------------------ *)
(** ** Path expansion *)

Lemma expand_one_run (P : Platform) (pathPattern : string)
    (expandedPaths : list string) (w : World P) :
  expand_one P pathPattern expandedPaths w
  = (Ok (expandedPaths ++ expansion_of P (fs w) pathPattern),
     mkWorld (fs w) (trace w ++ expansion_events P (fs w) pathPattern)).
Proof.
  unfold expand_one, expansion_of, expansion_events, expansion_log,
    glob_matches, glob_throws, literal_exists.
  run_monad. cbn [fs trace].
  destruct (fg_expand P pathPattern (fs w)) as [[|m matches]|rendered];
    cbn [settle List.length Nat.ltb Nat.leb fs trace negb andb].
  - destruct (fs_stat P pathPattern (fs w)) as [st|rendered];
      cbn [settle fs trace]; rewrite <- ?app_assoc, ?app_nil_r; reflexivity.
  - rewrite <- !app_assoc. reflexivity.
  - rewrite <- !app_assoc, app_nil_r. reflexivity.
Qed.

Lemma expand_paths_run (P : Platform) (paths : list string) :
  forall (expandedPaths : list string) (w : World P),
    expand_paths P paths expandedPaths w
    = (Ok (expandedPaths ++ flat_map (expansion_of P (fs w)) paths),
       mkWorld (fs w) (trace w ++ flat_map (expansion_events P (fs w)) paths)).
Proof.
  induction paths as [|p paths IH]; intros acc w; cbn [expand_paths flat_map].
  - unfold ret. rewrite !app_nil_r. destruct w. reflexivity.
  - unfold bind. rewrite expand_one_run, IH. cbn [fs trace].
    now rewrite <- !app_assoc.
Qed.

Lemma expansion_events_read_only (P : Platform) (disk : FS P) (paths : list string) :
  existsb mutates (flat_map (expansion_events P disk) paths) = false.
Proof.
  induction paths as [|p paths IH]; [reflexivity|].
  simpl. rewrite existsb_app, IH, orb_false_r.
  unfold expansion_log.
  destruct (fg_expand P p disk) as [[|m matches]|rendered]; try reflexivity.
  destruct (fs_stat P p disk); reflexivity.
Qed.

(** C7, as the code has it.  The specs are expanded in list order and
    the results concatenated, nothing being removed.  A spec contributes
    its glob matches, in the order returned, when there is at least one;
    itself, when the glob returned none and [stat] finds it; nothing
    otherwise.  A spec that is dropped because it does not exist is
    reported with [core.info]; a warning is logged only for a spec whose
    glob expansion threw, which is dropped as well.  The loop always
    completes and leaves the file system as it was. *)
Theorem expand_paths_in_order :
  forall (P : Platform) (paths : list string) (w : World P),
    expand_paths P paths [] w
    = (Ok (flat_map (expansion_of P (fs w)) paths),
       mkWorld (fs w) (trace w ++ flat_map (expansion_events P (fs w)) paths))
    /\ (forall p,
          glob_matches P (fs w) p <> [] ->
          expansion_of P (fs w) p = glob_matches P (fs w) p)
    /\ (forall p,
          fg_expand P p (fs w) = Done [] -> literal_exists P (fs w) p = true ->
          expansion_of P (fs w) p = [p])
    /\ (forall p,
          fg_expand P p (fs w) = Done [] -> literal_exists P (fs w) p = false ->
          expansion_of P (fs w) p = []
          /\ expansion_events P (fs w) p
             = [FgExpand p; FsStat p; LogInfo (p +++ " -> not found (skipping)")])
    /\ (forall p rendered,
          fg_expand P p (fs w) = Failed rendered ->
          expansion_of P (fs w) p = []
          /\ expansion_events P (fs w) p
             = [FgExpand p;
                LogWarning ("Error expanding path " +++ p +++ ": " +++ rendered)]).
Proof.
  intros P paths w. split; [apply (expand_paths_run P paths [] w)|].
  unfold expansion_of, expansion_events, expansion_log, glob_matches,
    glob_throws, literal_exists.
  split; [|split; [|split]].
  - intros p Hmatches.
    destruct (fg_expand P p (fs w)) as [[|m matches]|rendered]; congruence.
  - intros p Hglob Hexists. rewrite Hglob. cbn [negb andb]. now rewrite Hexists.
  - intros p Hglob Hexists. rewrite Hglob. cbn [negb andb].
    destruct (fs_stat P p (fs w)); [discriminate|]. split; reflexivity.
  - intros p rendered Hglob. rewrite Hglob. split; reflexivity.
Qed.

(** C7 as stated fails on the log level: a spec that matches nothing and
    does not exist is dropped without any warning, the loop reports it
    with [core.info]. *)
Lemma expand_paths_drops_without_warning :
  let run := expand_paths (Sample.platform "") ["a.txt"; "nope"] []
               (Sample.start "" Sample.working_tar) in
  fst run = Ok ["a.txt"]
  /\ trace (snd run)
     = [FgExpand "a.txt"; LogInfo "a.txt -> 1 match(es)";
        FgExpand "nope"; FsStat "nope"; LogInfo "nope -> not found (skipping)"]
  /\ existsb is_warning (trace (snd run)) = false.
Proof. vm_compute. repeat split. Qed.

(* ------------------------------------------------------------------ *)
(** ** Save *)

Lemma saveCache_valid (P : Platform) (paths : list string) (key : string)
    (w : World P) :
  paths <> [] ->
  checkKey key = Ok tt ->
  saveCache P paths key w
  = let expanded := flat_map (expansion_of P (fs w)) paths in
    let w' := mkWorld (fs w)
                (trace w ++ save_greeting paths
                   :: flat_map (expansion_events P (fs w)) paths) in
    match expanded with
    | [] => (Throw (PlainError "No valid paths found to cache after expansion"), w')
    | _ => save_pack P key expanded w'
    end.
Proof.
  intros Hpaths Hkey. unfold saveCache, save_pack, save_greeting.
  unfold bind at 1, lift at 1.
  destruct paths as [|p0 paths0] eqn:Epaths; [congruence|].
  cbn [checkPaths List.length Nat.eqb]. rewrite <- Epaths. clear Epaths.
  unfold bind at 1, lift at 1. rewrite Hkey.
  unfold bind at 1, info at 1, emit at 1.
  unfold bind at 1. rewrite expand_paths_run. cbn [fs trace app].
  rewrite <- app_assoc. cbn [app].
  destruct (flat_map (expansion_of P (fs w)) paths) as [|x xs]; reflexivity.
Qed.

(** C6.  With a valid key, a non-empty path list every spec of which
    has no glob match and does not exist as a literal path makes
    [saveCache] fail with the plain error "No valid paths found to cache
    after expansion".  Up to then it has logged, globbed and called
    [stat]; it has neither created the store directory nor started a
    child process, and the file system is the one it started from. *)
Theorem saveCache_no_valid_paths :
  forall (P : Platform) (paths : list string) (key : string) (w : World P),
    paths <> [] ->
    checkKey key = Ok tt ->
    (forall p, In p paths ->
               glob_matches P (fs w) p = [] /\ literal_exists P (fs w) p = false) ->
    exists added,
      saveCache P paths key w
      = (Throw (PlainError "No valid paths found to cache after expansion"),
         mkWorld (fs w) (trace w ++ added))
      /\ added = save_greeting paths :: flat_map (expansion_events P (fs w)) paths
      /\ existsb mutates added = false.
Proof.
  intros P paths key w Hpaths Hkey Hnone.
  exists (save_greeting paths :: flat_map (expansion_events P (fs w)) paths).
  split; [|split; [reflexivity|]].
  - rewrite saveCache_valid by assumption. cbv zeta.
    assert (E : flat_map (expansion_of P (fs w)) paths = []).
    { clear Hpaths. induction paths as [|p paths IH]; [reflexivity|].
      cbn [flat_map]. rewrite IH by (intros q Hq; apply Hnone; now right).
      destruct (Hnone p (or_introl eq_refl)) as [Hglob Hlit].
      unfold expansion_of. rewrite Hglob, Hlit, andb_false_r. reflexivity. }
    now rewrite E.
  - cbn [existsb save_greeting mutates orb]. apply expansion_events_read_only.
Qed.

Lemma saveCache_no_valid_paths_witness :
  exists added,
    saveCache (Sample.platform "") ["nope"; ""; "gone/*"] "k"
      (Sample.start "" Sample.working_tar)
    = (Throw (PlainError "No valid paths found to cache after expansion"),
       mkWorld (fs (Sample.start "" Sample.working_tar))
         (trace (Sample.start "" Sample.working_tar) ++ added))
    /\ added = save_greeting ["nope"; ""; "gone/*"]
               :: flat_map (expansion_events (Sample.platform "")
                              (fs (Sample.start "" Sample.working_tar)))
                    ["nope"; ""; "gone/*"]
    /\ existsb mutates added = false.
Proof.
  apply (saveCache_no_valid_paths (Sample.platform "") ["nope"; ""; "gone/*"] "k"
           (Sample.start "" Sample.working_tar)).
  - discriminate.
  - reflexivity.
  - intros p [<-|[<-|[<-|[]]]]; split; reflexivity.
Defined.

(* ------------------------------------------------------------------ *)
(** ** When the archive tool fails *)

(** [saveCache] after a failed [tar]: the warning, then the cleanup,
    and only then the choice between rethrowing and carrying on. *)
Lemma save_pack_tar_failure (P : Platform) (key : string)
    (expandedPaths : list string) (w : World P)
    (disk0 disk1 disk2 : FS P) (promise promise2 : Promise) (rendered : string) :
  fs_mkdir P (getCacheDirPath P) (fs w) = (Done tt, disk0) ->
  exec P (pack_cmd P key expandedPaths) disk0 = (promise, disk1) ->
  settles promise = Failed rendered ->
  exec P (cleanup_cmd (bundle_path P key)) disk1 = (promise2, disk2) ->
  exists said said',
    save_pack P key expandedPaths w
    = (match settles promise2 with
       | Failed rendered2 => Throw (ExternalError rendered2)
       | Done _ =>
           if skipFailure P then Ok 420 else Throw (ExternalError rendered)
       end,
       mkWorld disk2
         (trace w
          ++ [LogInfo said; FsMkdir (getCacheDirPath P); LogInfo said';
              ExecCmd (pack_cmd P key expandedPaths)]
          ++ flat_map on_data (output promise)
          ++ [LogWarning ("Error running tar: " +++ rendered);
              ExecCmd (cleanup_cmd (bundle_path P key))]
          ++ flat_map on_data (output promise2))).
Proof.
  intros Hmkdir Htar Hfail Hrm.
  unfold save_pack. run_monad. cbn [fs trace].
  fold (bundle_path P key). fold (pack_cmd P key expandedPaths).
  fold (cleanup_cmd (bundle_path P key)).
  rewrite Hmkdir. cbn [settle fs trace]. rewrite Htar. cbn [fs trace].
  rewrite Hfail. cbn [settle fs trace show_err]. rewrite Hrm. cbn [fs trace].
  do 2 eexists.
  destruct (settles promise2) as [[]|rendered2]; cbn [settle];
    [destruct (skipFailure P); cbn [negb]|];
    rewrite <- !app_assoc; reflexivity.
Qed.

Lemma save_pack_tar_success (P : Platform) (key : string)
    (expandedPaths : list string) (w : World P)
    (disk0 disk1 : FS P) (promise : Promise) :
  fs_mkdir P (getCacheDirPath P) (fs w) = (Done tt, disk0) ->
  exec P (pack_cmd P key expandedPaths) disk0 = (promise, disk1) ->
  settles promise = Done tt ->
  fst (save_pack P key expandedPaths w) = Ok 420
  /\ fs (snd (save_pack P key expandedPaths w)) = disk1.
Proof.
  intros Hmkdir Htar Hok.
  unfold save_pack. run_monad. cbn [fs trace].
  fold (bundle_path P key). fold (pack_cmd P key expandedPaths).
  rewrite Hmkdir. cbn [settle fs trace]. rewrite Htar. cbn [fs trace].
  rewrite Hok. cbn [settle fs trace].
  destruct (fs_stat P (bundle_path P key) disk1); cbn [settle fst snd fs]; auto.
Qed.

(** [restoreCache] after a failed [tar]: the warning, and then, only
    when failures are skipped, the cleanup; the matched key is returned
    when the cleanup succeeds. *)
Lemma restore_lookup_tar_failure (P : Platform) (primaryKey : string)
    (restoreKeys : option (list string)) (w : World P)
    (cacheFiles : list Entry) (key : string) (cacheFile : Entry)
    (disk1 disk2 : FS P) (promise promise2 : Promise) (rendered : string) :
  fg_scan P (restore_patterns P primaryKey restoreKeys) (getCacheDirPath P) (fs w)
  = Done cacheFiles ->
  locateCacheFile (filenameMatchers_of P primaryKey restoreKeys) cacheFiles
  = Some (key, cacheFile) ->
  exec P (extract_cmd P cacheFile) (fs w) = (promise, disk1) ->
  settles promise = Failed rendered ->
  exec P (cleanup_cmd (path_join P (getCacheDirPath P) (path cacheFile))) disk1
  = (promise2, disk2) ->
  exists said,
    let attempt :=
      trace w
      ++ [FgScan (restore_patterns P primaryKey restoreKeys) (getCacheDirPath P);
          LogInfo said; LogInfo "Extracting cache to project root...";
          ExecCmd (extract_cmd P cacheFile)]
      ++ flat_map on_data (output promise)
      ++ [LogWarning ("Error running tar: " +++ rendered)] in
    restore_lookup P primaryKey restoreKeys w
    = if skipFailure P then
        (match settles promise2 with
         | Failed rendered2 => Throw (ExternalError rendered2)
         | Done _ => Ok (Some key)
         end,
         mkWorld disk2
           (attempt
            ++ [ExecCmd (cleanup_cmd
                           (path_join P (getCacheDirPath P) (path cacheFile)))]
            ++ flat_map on_data (output promise2)))
      else (Throw (ExternalError rendered), mkWorld disk1 attempt).
Proof.
  intros Hscan Hlocate Htar Hfail Hrm.
  unfold restore_lookup. run_monad. cbn [fs trace].
  fold (restore_patterns P primaryKey restoreKeys).
  rewrite Hscan. cbn [settle]. rewrite Hlocate. cbn [fs trace].
  fold (extract_cmd P cacheFile).
  fold (cleanup_cmd (path_join P (getCacheDirPath P) (path cacheFile))).
  rewrite Htar. cbn [fs trace]. rewrite Hfail. cbn [settle fs trace show_err].
  eexists. cbv zeta.
  destruct (skipFailure P); cbn [negb fs trace].
  - rewrite Hrm. cbn [fs trace].
    destruct (settles promise2) as [[]|rendered2]; cbn [settle];
      rewrite <- !app_assoc; reflexivity.
  - rewrite <- !app_assoc. reflexivity.
Qed.

(** C4 as stated fails: with failures skipped and a failing [tar],
    [restoreCache] still returns the matched key, although nothing was
    extracted and the bundle is gone, and [saveCache] returns the number
    it returns after a successful save. *)
Lemma skipFailure_reports_success :
  fst (restoreCache (Sample.platform "true") ["a.txt"] "k" None
         (Sample.start "true" Sample.broken_tar))
  = Ok (Some "k")
  /\ Sample.bundles
       (fs (snd (restoreCache (Sample.platform "true") ["a.txt"] "k" None
                   (Sample.start "true" Sample.broken_tar))))
     = []
  /\ fst (saveCache (Sample.platform "true") ["a.txt"] "k"
            (Sample.start "true" Sample.broken_tar))
     = Ok 420
  /\ fst (saveCache (Sample.platform "true") ["a.txt"] "k"
            (Sample.start "true" Sample.working_tar))
     = Ok 420.
Proof. vm_compute. repeat split. Qed.

(** C3 at the failing input.  Failures are not skipped and [tar] fails:
    [restoreCache] rethrows the error without having started any cleanup
    and the corrupt bundle stays in the store, whereas [saveCache], in
    the same situation, removes the bundle before it rethrows. *)
Theorem restoreCache_rethrows_before_cleanup :
  let restored := restoreCache (Sample.platform "") ["a.txt"] "k" None
                    (Sample.start "" Sample.broken_tar) in
  let saved := saveCache (Sample.platform "") ["a.txt"] "k"
                 (Sample.start "" Sample.broken_tar) in
  (exists rendered, fst restored = Throw (ExternalError rendered))
  /\ existsb is_cleanup (trace (snd restored)) = false
  /\ Sample.bundles (fs (snd restored)) = [Sample.bundle "k.tar.zst" 5]
  /\ (exists rendered, fst saved = Throw (ExternalError rendered))
  /\ existsb is_cleanup (trace (snd saved)) = true
  /\ Sample.bundles (fs (snd saved)) = [].
Proof.
  vm_compute. repeat split; eexists; reflexivity.
Qed.

(* ------------------------------------------------------------------ *)
(** ** More on the matcher *)

Lemma append_assoc_str (a b c : string) : (a +++ b) +++ c = a +++ b +++ c.
Proof. induction a as [|x a IH]; simpl; [reflexivity | now rewrite IH]. Qed.

Lemma is_substring_trans (a b c : string) :
  is_substring a b -> is_substring b c -> is_substring a c.
Proof.
  intros (p & q & ->) (r & t & ->).
  exists (r +++ p), (q +++ t). now rewrite !append_assoc_str.
Qed.

Lemma is_substring_empty (s : string) : is_substring "" s.
Proof. now exists "", s. Qed.

Lemma filterCacheFiles_hit_shape (filenameMatchers : list string)
    (cacheFiles : list Entry) (key : string) (potentialCaches : list Entry) :
  filterCacheFiles filenameMatchers cacheFiles = (Some key, potentialCaches) ->
  exists earlier later,
    filenameMatchers = earlier ++ key :: later
    /\ (forall c, In c earlier -> filter (name_contains c) cacheFiles = [])
    /\ potentialCaches = filter (name_contains key) cacheFiles
    /\ potentialCaches <> [].
Proof.
  induction filenameMatchers as [|m ms IH]; [discriminate|].
  rewrite filterCacheFiles_cons.
  destruct (filter (name_contains m) cacheFiles) as [|h hits] eqn:E.
  - intros H. destruct (IH H) as (earlier & later & -> & Hearlier & Hpcs & Hne).
    exists (m :: earlier), later. repeat split; auto.
    intros c [<-|Hc]; auto.
  - intros [= <- <-]. exists [], ms. repeat split; auto; [intros c []|discriminate].
Qed.

Lemma filterCacheFiles_none_shape (filenameMatchers : list string)
    (cacheFiles : list Entry) (potentialCaches : list Entry) :
  filterCacheFiles filenameMatchers cacheFiles = (None, potentialCaches) ->
  potentialCaches = []
  /\ forall c, In c filenameMatchers -> filter (name_contains c) cacheFiles = [].
Proof.
  induction filenameMatchers as [|m ms IH].
  - intros [= <-]. split; [reflexivity | intros c []].
  - rewrite filterCacheFiles_cons.
    destruct (filter (name_contains m) cacheFiles) as [|h hits] eqn:E; [|discriminate].
    intros H. destruct (IH H) as [-> Hall]. split; [reflexivity|].
    intros c [<-|Hc]; auto.
Qed.

Lemma no_hits_iff (c : string) (cacheFiles : list Entry) :
  filter (name_contains c) cacheFiles = []
  <-> forall e, In e cacheFiles -> ~ is_substring c (name e).
Proof.
  rewrite filter_nil_iff. split; intros H e He.
  - rewrite <- name_contains_iff, (H e He). discriminate.
  - destruct (name_contains c e) eqn:E; [|reflexivity].
    apply name_contains_iff in E. now apply H in E.
Qed.

Lemma filterCacheFiles_skip (earlier : list string) (key : string)
    (later : list string) (cacheFiles : list Entry) :
  (forall c, In c earlier -> filter (name_contains c) cacheFiles = []) ->
  filterCacheFiles (earlier ++ key :: later) cacheFiles
  = filterCacheFiles (key :: later) cacheFiles.
Proof.
  induction earlier as [|m earlier IH]; intros H; [reflexivity|].
  cbn [app]. rewrite filterCacheFiles_cons, (H m (or_introl eq_refl)).
  apply IH. intros c Hc. apply H. now right.
Qed.

Lemma pop_sort_some (entries : list Entry) :
  entries <> [] ->
  exists latest,
    pop (sort by_mtime entries) = Some latest
    /\ In latest entries
    /\ forall e, In e entries -> mtime_or_0 e <= mtime_or_0 latest.
Proof.
  intros Hne.
  destruct (newest_split entries Hne) as (before & latest & after & E & Hb & Ha).
  exists latest. split; [|split].
  - apply (stable_sort_pop before after); auto. rewrite <- E. apply sort_stable.
  - rewrite E. apply in_or_app. right. now left.
  - intros e He. rewrite E in He. apply in_app_or in He as [He|[<-|He]].
    + now apply Hb.
    + lia.
    + specialize (Ha e He). lia.
Qed.

(** X1.  A hit of [locateCacheFile] is sound: the key is a non-empty
    candidate, no candidate before it is contained in any scanned name,
    the entry is a scanned entry whose name contains the key, and no
    scanned entry whose name contains the key is newer. *)
Theorem locateCacheFile_hit_sound :
  forall (filenameMatchers : list string) (cacheFiles : list Entry)
         (key : string) (cacheFile : Entry),
    locateCacheFile filenameMatchers cacheFiles = Some (key, cacheFile) ->
    key <> ""
    /\ In cacheFile cacheFiles
    /\ is_substring key (name cacheFile)
    /\ (forall e, In e cacheFiles -> is_substring key (name e) ->
                  mtime_or_0 e <= mtime_or_0 cacheFile)
    /\ exists earlier later,
         filenameMatchers = earlier ++ key :: later
         /\ forall c e, In c earlier -> In e cacheFiles ->
                        ~ is_substring c (name e).
Proof.
  intros ms cacheFiles key cacheFile. unfold locateCacheFile.
  destruct (filterCacheFiles ms cacheFiles) as [[k|] pcs] eqn:Hfilter.
  2: { cbn [key_falsy]. rewrite orb_true_r. discriminate. }
  destruct (filterCacheFiles_hit_shape _ _ _ _ Hfilter)
    as (earlier & later & Hms & Hearlier & Hpcs & Hne).
  destruct (pop_sort_some pcs Hne) as (latest & Hpop & Hin & Hmax).
  rewrite Hpop.
  destruct pcs as [|p pcs']; [congruence|]. cbn [List.length Nat.eqb orb].
  destruct k as [|c k]; [discriminate|]. cbn [key_falsy truthy negb].
  intros [= <- <-].
  rewrite Hpcs in Hin, Hmax.
  apply filter_In in Hin as [Hin Hcontains].
  split; [discriminate|]. split; [exact Hin|].
  split; [now apply name_contains_iff|]. split.
  - intros e He Hs. apply Hmax, filter_In. split; [exact He|].
    now apply name_contains_iff.
  - exists earlier, later. split; [exact Hms|].
    intros c0 e Hc He. now apply (proj1 (no_hits_iff c0 cacheFiles) (Hearlier c0 Hc)).
Qed.

Lemma locateCacheFile_hit_sound_witness :
  "k" <> ""
  /\ In (Sample.bundle "k-2.tar.zst" 9) (Sample.bundles Sample.two_saves)
  /\ is_substring "k" (name (Sample.bundle "k-2.tar.zst" 9))
  /\ (forall e, In e (Sample.bundles Sample.two_saves) ->
                is_substring "k" (name e) ->
                mtime_or_0 e <= mtime_or_0 (Sample.bundle "k-2.tar.zst" 9))
  /\ exists earlier later,
       ["zz"; "k"; "old"] = earlier ++ "k" :: later
       /\ forall c e, In c earlier -> In e (Sample.bundles Sample.two_saves) ->
                      ~ is_substring c (name e).
Proof.
  apply (locateCacheFile_hit_sound ["zz"; "k"; "old"]
           (Sample.bundles Sample.two_saves) "k"
           (Sample.bundle "k-2.tar.zst" 9)).
  reflexivity.
Defined.

(** X2.  [locateCacheFile] reports a miss in exactly two situations: no
    candidate is contained in any scanned name, or the first candidate
    that is contained in one is the empty string. *)
Theorem locateCacheFile_miss_iff :
  forall (filenameMatchers : list string) (cacheFiles : list Entry),
    locateCacheFile filenameMatchers cacheFiles = None
    <-> (forall c e, In c filenameMatchers -> In e cacheFiles ->
                     ~ is_substring c (name e))
        \/ (cacheFiles <> []
            /\ exists earlier later,
                 filenameMatchers = earlier ++ "" :: later
                 /\ forall c e, In c earlier -> In e cacheFiles ->
                                ~ is_substring c (name e)).
Proof.
  intros ms cacheFiles. split.
  - unfold locateCacheFile.
    destruct (filterCacheFiles ms cacheFiles) as [[k|] pcs] eqn:Hfilter.
    + destruct (filterCacheFiles_hit_shape _ _ _ _ Hfilter)
        as (earlier & later & Hms & Hearlier & Hpcs & Hne).
      destruct (pop_sort_some pcs Hne) as (latest & Hpop & _ & _).
      rewrite Hpop. destruct pcs as [|p pcs']; [congruence|].
      cbn [List.length Nat.eqb orb].
      destruct k as [|c k]; [|discriminate]. intros _. right. split.
      * intros ->. discriminate.
      * exists earlier, later. split; [exact Hms|].
        intros c0 e Hc He.
        now apply (proj1 (no_hits_iff c0 cacheFiles) (Hearlier c0 Hc)).
    + intros _. left. destruct (filterCacheFiles_none_shape _ _ _ Hfilter) as [_ H].
      intros c e Hc He. now apply (proj1 (no_hits_iff c cacheFiles) (H c Hc)).
  - intros [Hnone|(Hne & earlier & later & -> & Hearlier)].
    + now apply locateCacheFile_no_match.
    + unfold locateCacheFile. rewrite filterCacheFiles_skip.
      2: { intros c Hc. apply no_hits_iff. intros e He. now apply Hearlier. }
      rewrite filterCacheFiles_cons.
      assert (Hall : filter (name_contains "") cacheFiles = cacheFiles).
      { clear. induction cacheFiles as [|e l IH]; [reflexivity|].
        cbn [filter]. rewrite (proj2 (name_contains_iff "" e) (is_substring_empty _)).
        now rewrite IH. }
      rewrite Hall. destruct cacheFiles as [|e l]; [congruence|].
      cbn [key_falsy truthy negb]. now rewrite orb_true_r.
Qed.

(** X3.  The key [filterCacheFiles] selects contains none of the candidates
    listed before it: a candidate that has an earlier candidate as a
    substring is never the matched key. *)
Theorem filterCacheFiles_never_selects_shadowed :
  forall (filenameMatchers : list string) (cacheFiles : list Entry)
         (key : string) (potentialCaches : list Entry),
    filterCacheFiles filenameMatchers cacheFiles = (Some key, potentialCaches) ->
    exists earlier later,
      filenameMatchers = earlier ++ key :: later
      /\ forall c, In c earlier -> ~ is_substring c key.
Proof.
  intros ms cacheFiles key pcs Hfilter.
  destruct (filterCacheFiles_hit_shape _ _ _ _ Hfilter)
    as (earlier & later & Hms & Hearlier & Hpcs & Hne).
  exists earlier, later. split; [exact Hms|].
  intros c Hc Hsub.
  destruct pcs as [|e pcs']; [congruence|].
  assert (He : In e (filter (name_contains key) cacheFiles))
    by (rewrite <- Hpcs; now left).
  apply filter_In in He as [He Hcontains].
  apply name_contains_iff in Hcontains.
  apply (proj1 (no_hits_iff c cacheFiles) (Hearlier c Hc) e He).
  exact (is_substring_trans _ _ _ Hsub Hcontains).
Qed.

Lemma filterCacheFiles_never_selects_shadowed_witness :
  exists earlier later,
    ["zz"; "old"; "k"] = earlier ++ "old" :: later
    /\ forall c, In c earlier -> ~ is_substring c "old".
Proof.
  apply (filterCacheFiles_never_selects_shadowed ["zz"; "old"; "k"]
           (Sample.bundles Sample.two_saves) "old"
           [Sample.bundle "old.tar.zst" 7]).
  reflexivity.
Defined.

(* ------------------------------------------------------------------ *)
(** ** What the operations do to the world *)

Lemma on_data_restore_events (chunks : list Chunk) :
  forallb restore_event (flat_map on_data chunks) = true.
Proof.
  induction chunks as [|[data|data] chunks IH]; cbn [flat_map on_data];
    [reflexivity| |]; rewrite forallb_app, IH, andb_true_r;
    [|destruct (truthy data)]; reflexivity.
Qed.

Lemma on_data_save_events (chunks : list Chunk) :
  forallb save_event (flat_map on_data chunks) = true.
Proof.
  induction chunks as [|[data|data] chunks IH]; cbn [flat_map on_data];
    [reflexivity| |]; rewrite forallb_app, IH, andb_true_r;
    [|destruct (truthy data)]; reflexivity.
Qed.

Lemma on_data_no_mutation (chunks : list Chunk) :
  filter mutates (flat_map on_data chunks) = [].
Proof.
  induction chunks as [|[data|data] chunks IH]; cbn [flat_map on_data];
    [reflexivity| |]; rewrite filter_app, IH, app_nil_r;
    [|destruct (truthy data)]; reflexivity.
Qed.

Lemma filter_existsb_false {A} (f : A -> bool) (l : list A) :
  existsb f l = false -> filter f l = [].
Proof.
  induction l as [|a l IH]; [reflexivity|]. cbn [existsb filter].
  destruct (f a); [discriminate | exact IH].
Qed.

Lemma expansion_events_no_mutation (P : Platform) (disk : FS P) (paths : list string) :
  filter mutates (flat_map (expansion_events P disk) paths) = [].
Proof. apply filter_existsb_false, expansion_events_read_only. Qed.

Lemma expansion_events_save_events (P : Platform) (disk : FS P) (paths : list string) :
  forallb save_event (flat_map (expansion_events P disk) paths) = true.
Proof.
  induction paths as [|p paths IH]; [reflexivity|].
  cbn [flat_map]. rewrite forallb_app, IH, andb_true_r.
  unfold expansion_events, expansion_log.
  destruct (fg_expand P p disk) as [[|m matches]|rendered]; try reflexivity.
  destruct (fs_stat P p disk); reflexivity.
Qed.

Ltac trace_facts :=
  repeat progress
    (rewrite ?forallb_app, ?filter_app, ?on_data_restore_events,
       ?on_data_save_events, ?on_data_no_mutation;
     cbn [forallb filter restore_event save_event mutates andb app List.length]).

Lemma restore_lookup_effects (P : Platform) (primaryKey : string)
    (restoreKeys : option (list string)) (w : World P) :
  exists added,
    trace (snd (restore_lookup P primaryKey restoreKeys w)) = trace w ++ added
    /\ forallb restore_event added = true
    /\ (List.length (filter mutates added) <= 2)%nat
    /\ (skipFailure P = false -> (List.length (filter mutates added) <= 1)%nat)
    /\ (filter mutates added = [] ->
        fs (snd (restore_lookup P primaryKey restoreKeys w)) = fs w).
Proof.
  unfold restore_lookup. run_monad. cbn [fs trace].
  destruct (fg_scan P _ _ (fs w)) as [cacheFiles|rendered]; cbn [settle].
  2: { eexists. cbn [snd trace fs]. split; [reflexivity|].
       trace_facts. repeat split; auto. }
  destruct (locateCacheFile _ cacheFiles) as [[key cacheFile]|].
  2: { eexists. cbn [snd trace fs]. split; [reflexivity|].
       trace_facts. repeat split; auto. }
  cbn [fs trace].
  destruct (exec P _ (fs w)) as [promise disk1]. cbn [fs trace].
  destruct (settles promise) as [[]|rendered]; cbn [settle fs trace snd].
  { eexists. split; [rewrite <- !app_assoc; reflexivity|].
    trace_facts. repeat split; auto; discriminate. }
  destruct (skipFailure P) eqn:Hskip; cbn [negb fs trace snd].
  2: { eexists. split; [rewrite <- !app_assoc; reflexivity|].
       trace_facts. repeat split; auto; discriminate. }
  destruct (exec P _ disk1) as [promise2 disk2]. cbn [fs trace].
  destruct (settles promise2) as [[]|rendered2]; cbn [settle snd trace fs];
    (eexists; split; [rewrite <- !app_assoc; reflexivity|]);
    trace_facts; repeat split; auto; discriminate.
Qed.

(** X5.  Whatever its arguments and the platform, [restoreCache] only logs,
    scans the store and starts child processes: it never globs or
    [stat]s the working tree and never creates a directory.  It starts
    at most two child processes, at most one when failures are not
    skipped, and when it starts none the file system is the one it was
    called in. *)
Theorem restoreCache_effects_bounded :
  forall (P : Platform) (paths : list string) (primaryKey : string)
         (restoreKeys : option (list string)) (w : World P),
    exists added,
      trace (snd (restoreCache P paths primaryKey restoreKeys w)) = trace w ++ added
      /\ forallb restore_event added = true
      /\ (List.length (filter mutates added) <= 2)%nat
      /\ (skipFailure P = false -> (List.length (filter mutates added) <= 1)%nat)
      /\ (filter mutates added = [] ->
          fs (snd (restoreCache P paths primaryKey restoreKeys w)) = fs w).
Proof.
  intros P paths primaryKey restoreKeys w.
  destruct (checkKey_cases primaryKey) as [Hok|[m Hthrow]].
  - destruct paths as [|p paths'] eqn:Epaths.
    + destruct (restoreCache_invalid P [] primaryKey restoreKeys w
                  (or_introl eq_refl)) as [m ->].
      exists []. cbn [snd]. rewrite app_nil_r. repeat split; auto.
    + rewrite <- Epaths. rewrite restoreCache_valid by (subst; auto; discriminate).
      destruct (restore_lookup_effects P primaryKey restoreKeys
                  (mkWorld (fs w) (trace w ++ [restore_greeting paths])))
        as (added & Htrace & Hevents & Htwo & Hone & Hfs).
      cbn [fs trace] in *.
      exists (restore_greeting paths :: added).
      split; [rewrite Htrace, <- app_assoc; reflexivity|].
      cbn [forallb filter restore_greeting restore_event mutates andb].
      repeat split; auto.
  - rewrite (restoreCache_invalid_key _ _ _ _ _ _ Hthrow).
    exists []. cbn [snd]. rewrite app_nil_r. repeat split; auto.
Qed.

Lemma save_pack_mkdir_failure (P : Platform) (key : string)
    (expandedPaths : list string) (w : World P) (disk0 : FS P) (rendered : string) :
  fs_mkdir P (getCacheDirPath P) (fs w) = (Failed rendered, disk0) ->
  exists said,
    save_pack P key expandedPaths w
    = (Throw (ExternalError rendered),
       mkWorld disk0 (trace w ++ [LogInfo said; FsMkdir (getCacheDirPath P)])).
Proof.
  intros Hmkdir. unfold save_pack. run_monad. cbn [fs trace].
  rewrite Hmkdir. cbn [settle]. eexists. rewrite <- !app_assoc. reflexivity.
Qed.

Lemma save_pack_tar_success_run (P : Platform) (key : string)
    (expandedPaths : list string) (w : World P)
    (disk0 disk1 : FS P) (promise : Promise) :
  fs_mkdir P (getCacheDirPath P) (fs w) = (Done tt, disk0) ->
  exec P (pack_cmd P key expandedPaths) disk0 = (promise, disk1) ->
  settles promise = Done tt ->
  exists said said' said'',
    save_pack P key expandedPaths w
    = (Ok 420,
       mkWorld disk1
         (trace w
          ++ [LogInfo said; FsMkdir (getCacheDirPath P); LogInfo said';
              ExecCmd (pack_cmd P key expandedPaths)]
          ++ flat_map on_data (output promise)
          ++ [FsStat (bundle_path P key); LogInfo said''])).
Proof.
  intros Hmkdir Htar Hok.
  unfold save_pack. run_monad. cbn [fs trace].
  fold (bundle_path P key). fold (pack_cmd P key expandedPaths).
  rewrite Hmkdir. cbn [settle fs trace]. rewrite Htar. cbn [fs trace].
  rewrite Hok. cbn [settle fs trace].
  destruct (fs_stat P (bundle_path P key) disk1); cbn [settle fs trace];
    do 3 eexists; rewrite <- !app_assoc; reflexivity.
Qed.

Lemma save_pack_effects (P : Platform) (key : string)
    (expandedPaths : list string) (w : World P) :
  exists added rest,
    trace (snd (save_pack P key expandedPaths w)) = trace w ++ added
    /\ forallb save_event added = true
    /\ [FsMkdir (getCacheDirPath P);
        ExecCmd (pack_cmd P key expandedPaths);
        ExecCmd (cleanup_cmd (bundle_path P key))]
       = filter mutates added ++ rest.
Proof.
  destruct (fs_mkdir P (getCacheDirPath P) (fs w)) as [[[]|rendered] disk0] eqn:Emk.
  2: { destruct (save_pack_mkdir_failure P key expandedPaths w disk0 rendered Emk)
         as (said & ->).
       do 2 eexists. cbn [snd trace]. split; [reflexivity|].
       trace_facts. split; reflexivity. }
  destruct (exec P (pack_cmd P key expandedPaths) disk0) as [promise disk1] eqn:Etar.
  destruct (settles promise) as [[]|rendered] eqn:Esettle.
  - destruct (save_pack_tar_success_run P key expandedPaths w disk0 disk1 promise
                Emk Etar Esettle) as (said & said' & said'' & ->).
    do 2 eexists. cbn [snd trace]. split; [reflexivity|].
    trace_facts. split; reflexivity.
  - destruct (exec P (cleanup_cmd (bundle_path P key)) disk1)
      as [promise2 disk2] eqn:Erm.
    destruct (save_pack_tar_failure P key expandedPaths w disk0 disk1 disk2
                promise promise2 rendered Emk Etar Esettle Erm)
      as (said & said' & ->).
    exists ([LogInfo said; FsMkdir (getCacheDirPath P); LogInfo said';
             ExecCmd (pack_cmd P key expandedPaths)]
            ++ flat_map on_data (output promise)
            ++ [LogWarning ("Error running tar: " +++ rendered);
                ExecCmd (cleanup_cmd (bundle_path P key))]
            ++ flat_map on_data (output promise2)), [].
    cbn [snd trace]. split; [reflexivity|].
    trace_facts. split; reflexivity.
Qed.

(** X6.  Whatever its arguments and the platform, [saveCache] never scans the
    store, and what it does that can change the file system is an
    initial part of: create the store directory, run [tar] on the
    expanded paths, remove the bundle.  It never removes anything
    without having run [tar], and never runs [tar] without having
    created the directory. *)
Theorem saveCache_effects_bounded :
  forall (P : Platform) (paths : list string) (key : string) (w : World P),
    exists added rest,
      trace (snd (saveCache P paths key w)) = trace w ++ added
      /\ forallb save_event added = true
      /\ [FsMkdir (getCacheDirPath P);
          ExecCmd (pack_cmd P key (flat_map (expansion_of P (fs w)) paths));
          ExecCmd (cleanup_cmd (bundle_path P key))]
         = filter mutates added ++ rest.
Proof.
  intros P paths key w.
  destruct (checkKey_cases key) as [Hok|Hthrow].
  - destruct paths as [|p paths'] eqn:Epaths.
    + destruct (saveCache_invalid P [] key w (or_introl eq_refl)) as [m ->].
      exists []. eexists. cbn [snd]. rewrite app_nil_r.
      split; [reflexivity|]. split; reflexivity.
    + rewrite <- Epaths.
      rewrite saveCache_valid by (subst; auto; discriminate). cbv zeta.
      destruct (flat_map (expansion_of P (fs w)) paths) as [|x xs] eqn:Eexp.
      * exists (save_greeting paths :: flat_map (expansion_events P (fs w)) paths).
        eexists. cbn [snd trace]. split; [reflexivity|].
        cbn [forallb filter save_greeting save_event mutates andb].
        rewrite expansion_events_save_events, expansion_events_no_mutation.
        split; reflexivity.
      * destruct (save_pack_effects P key (x :: xs)
                    (mkWorld (fs w)
                       (trace w ++ save_greeting paths
                          :: flat_map (expansion_events P (fs w)) paths)))
          as (added & rest & Htrace & Hevents & Hshape).
        cbn [fs trace] in *.
        exists ((save_greeting paths :: flat_map (expansion_events P (fs w)) paths)
                ++ added), rest.
        split; [rewrite Htrace, <- app_assoc; reflexivity|].
        rewrite forallb_app, filter_app.
        cbn [forallb filter save_greeting save_event mutates andb].
        rewrite expansion_events_save_events, expansion_events_no_mutation, Hevents.
        split; [reflexivity | exact Hshape].
  - apply checkKey_throws_iff in Hthrow.
    destruct (saveCache_invalid P paths key w (or_intror Hthrow)) as [m ->].
    exists []. eexists. cbn [snd]. rewrite app_nil_r.
    split; [reflexivity|]. split; reflexivity.
Qed.

(* ------------------------------------------------------------------ *)
(** ** Outcomes of [saveCache] *)

Lemma saveCache_packs (P : Platform) (paths : list string) (key : string)
    (w : World P) :
  paths <> [] ->
  checkKey key = Ok tt ->
  flat_map (expansion_of P (fs w)) paths <> [] ->
  saveCache P paths key w
  = save_pack P key (flat_map (expansion_of P (fs w)) paths)
      (mkWorld (fs w)
         (trace w ++ save_greeting paths
            :: flat_map (expansion_events P (fs w)) paths)).
Proof.
  intros Hpaths Hkey Hexp. rewrite saveCache_valid by assumption. cbv zeta.
  destruct (flat_map (expansion_of P (fs w)) paths); [congruence | reflexivity].
Qed.

Lemma expansion_prefix_no_mutation (P : Platform) (paths : list string)
    (w : World P) (added : list Event) :
  filter mutates
    ((save_greeting paths :: flat_map (expansion_events P (fs w)) paths) ++ added)
  = filter mutates added.
Proof.
  rewrite filter_app. cbn [filter save_greeting mutates].
  now rewrite expansion_events_no_mutation.
Qed.

(** X7.  A save whose [mkdir] and [tar] succeed returns 420, whether or not
    the bundle can be [stat]ed afterwards; the directory creation and
    the one [tar] on the expanded paths are all it did that can change
    the file system, which is left as [tar] left it. *)
Theorem saveCache_success :
  forall (P : Platform) (paths : list string) (key : string) (w : World P),
    let expanded := flat_map (expansion_of P (fs w)) paths in
    let made := fs_mkdir P (getCacheDirPath P) (fs w) in
    let packed := exec P (pack_cmd P key expanded) (snd made) in
    paths <> [] ->
    checkKey key = Ok tt ->
    expanded <> [] ->
    fst made = Done tt ->
    settles (fst packed) = Done tt ->
    fst (saveCache P paths key w) = Ok 420
    /\ fs (snd (saveCache P paths key w)) = snd packed
    /\ exists added,
         trace (snd (saveCache P paths key w)) = trace w ++ added
         /\ filter mutates added
            = [FsMkdir (getCacheDirPath P); ExecCmd (pack_cmd P key expanded)].
Proof.
  intros P paths key w expanded made packed Hpaths Hkey Hexp Hmade Hpacked.
  subst expanded made packed.
  rewrite saveCache_packs by assumption.
  destruct (fs_mkdir P (getCacheDirPath P) (fs w)) as [r disk0] eqn:Emk.
  cbn [fst snd] in *. subst r.
  destruct (exec P (pack_cmd P key (flat_map (expansion_of P (fs w)) paths)) disk0)
    as [promise disk1] eqn:Etar.
  cbn [fst snd] in *.
  destruct (save_pack_tar_success_run P key _
              (mkWorld (fs w)
                 (trace w ++ save_greeting paths
                    :: flat_map (expansion_events P (fs w)) paths))
              disk0 disk1 promise Emk Etar Hpacked)
    as (said & said' & said'' & ->).
  cbn [fst snd fs trace]. split; [reflexivity|]. split; [reflexivity|].
  eexists. split; [rewrite <- app_assoc; reflexivity|].
  cbn [app filter save_greeting mutates].
  rewrite filter_app, expansion_events_no_mutation.
  trace_facts. reflexivity.
Qed.

Lemma saveCache_success_witness :
  let P := Sample.platform "" in
  let w := Sample.start "" Sample.working_tar in
  fst (saveCache P ["a.txt"; "nope"; "dir"] "k" w) = Ok 420
  /\ fs (snd (saveCache P ["a.txt"; "nope"; "dir"] "k" w))
     = snd (exec P (pack_cmd P "k"
                      (flat_map (expansion_of P (fs w)) ["a.txt"; "nope"; "dir"]))
              (snd (fs_mkdir P (getCacheDirPath P) (fs w))))
  /\ exists added,
       trace (snd (saveCache P ["a.txt"; "nope"; "dir"] "k" w)) = trace w ++ added
       /\ filter mutates added
          = [FsMkdir (getCacheDirPath P);
             ExecCmd (pack_cmd P "k"
                        (flat_map (expansion_of P (fs w)) ["a.txt"; "nope"; "dir"]))].
Proof.
  apply (saveCache_success (Sample.platform "") ["a.txt"; "nope"; "dir"] "k"
           (Sample.start "" Sample.working_tar));
    try reflexivity; discriminate.
Defined.

(** X8.  After a failed [tar] whose cleanup succeeds, [saveCache] has created
    the directory, run [tar] and removed the bundle, in this order, and
    nothing else that can change the file system.  It then re-raises the
    error of [tar] when the skip-failure input is empty, and returns 420
    for every other value of the input, the text [false] included. *)
Theorem saveCache_tar_failure_outcome :
  forall (P : Platform) (paths : list string) (key : string) (w : World P)
         (rendered : string),
    let expanded := flat_map (expansion_of P (fs w)) paths in
    let made := fs_mkdir P (getCacheDirPath P) (fs w) in
    let packed := exec P (pack_cmd P key expanded) (snd made) in
    let cleaned := exec P (cleanup_cmd (bundle_path P key)) (snd packed) in
    paths <> [] ->
    checkKey key = Ok tt ->
    expanded <> [] ->
    fst made = Done tt ->
    settles (fst packed) = Failed rendered ->
    settles (fst cleaned) = Done tt ->
    (exists added,
        trace (snd (saveCache P paths key w)) = trace w ++ added
        /\ filter mutates added
           = [FsMkdir (getCacheDirPath P); ExecCmd (pack_cmd P key expanded);
              ExecCmd (cleanup_cmd (bundle_path P key))])
    /\ fs (snd (saveCache P paths key w)) = snd cleaned
    /\ (input_skip_failure P = "" ->
        fst (saveCache P paths key w) = Throw (ExternalError rendered))
    /\ (input_skip_failure P <> "" -> fst (saveCache P paths key w) = Ok 420).
Proof.
  intros P paths key w rendered expanded made packed cleaned
         Hpaths Hkey Hexp Hmade Hpacked Hcleaned.
  subst expanded made packed cleaned.
  rewrite saveCache_packs by assumption.
  destruct (fs_mkdir P (getCacheDirPath P) (fs w)) as [r disk0] eqn:Emk.
  cbn [fst snd] in *. subst r.
  destruct (exec P (pack_cmd P key (flat_map (expansion_of P (fs w)) paths)) disk0)
    as [promise disk1] eqn:Etar.
  cbn [fst snd] in *.
  destruct (exec P (cleanup_cmd (bundle_path P key)) disk1)
    as [promise2 disk2] eqn:Erm.
  cbn [fst snd] in *.
  destruct (save_pack_tar_failure P key _
              (mkWorld (fs w)
                 (trace w ++ save_greeting paths
                    :: flat_map (expansion_events P (fs w)) paths))
              disk0 disk1 disk2 promise promise2 rendered Emk Etar Hpacked Erm)
    as (said & said' & ->).
  rewrite Hcleaned. cbn [fst snd fs trace]. split; [|split; [reflexivity|]].
  - eexists. split; [rewrite <- app_assoc; reflexivity|].
    cbn [app filter save_greeting mutates].
    rewrite filter_app, expansion_events_no_mutation.
    trace_facts. reflexivity.
  - unfold skipFailure. split.
    + intros ->. reflexivity.
    + intros Hset. destruct (input_skip_failure P); [congruence | reflexivity].
Qed.

Lemma saveCache_tar_failure_outcome_witness :
  let P := Sample.platform "false" in
  let w := Sample.start "false" Sample.broken_tar in
  let expanded := flat_map (expansion_of P (fs w)) ["a.txt"; "dir"] in
  let packed := exec P (pack_cmd P "k" expanded)
                  (snd (fs_mkdir P (getCacheDirPath P) (fs w))) in
  (exists added,
      trace (snd (saveCache P ["a.txt"; "dir"] "k" w)) = trace w ++ added
      /\ filter mutates added
         = [FsMkdir (getCacheDirPath P); ExecCmd (pack_cmd P "k" expanded);
            ExecCmd (cleanup_cmd (bundle_path P "k"))])
  /\ fs (snd (saveCache P ["a.txt"; "dir"] "k" w))
     = snd (exec P (cleanup_cmd (bundle_path P "k")) (snd packed))
  /\ (input_skip_failure P = "" ->
      fst (saveCache P ["a.txt"; "dir"] "k" w)
      = Throw (ExternalError ("Error: Command failed: " +++ pack_cmd P "k" expanded)))
  /\ (input_skip_failure P <> "" ->
      fst (saveCache P ["a.txt"; "dir"] "k" w) = Ok 420).
Proof.
  apply (saveCache_tar_failure_outcome (Sample.platform "false") ["a.txt"; "dir"]
           "k" (Sample.start "false" Sample.broken_tar)
           ("Error: Command failed: "
            +++ pack_cmd (Sample.platform "false") "k" ["a.txt"; "dir"]));
    try reflexivity; discriminate.
Defined.

(** X9.  When the removal of the bundle fails after a failed [tar],
    [saveCache] raises the error of the removal in place of the error of
    [tar], also when failures are to be skipped. *)
Theorem saveCache_cleanup_failure_raises :
  forall (P : Platform) (paths : list string) (key : string) (w : World P)
         (rendered rendered2 : string),
    let expanded := flat_map (expansion_of P (fs w)) paths in
    let made := fs_mkdir P (getCacheDirPath P) (fs w) in
    let packed := exec P (pack_cmd P key expanded) (snd made) in
    let cleaned := exec P (cleanup_cmd (bundle_path P key)) (snd packed) in
    paths <> [] ->
    checkKey key = Ok tt ->
    expanded <> [] ->
    fst made = Done tt ->
    settles (fst packed) = Failed rendered ->
    settles (fst cleaned) = Failed rendered2 ->
    fst (saveCache P paths key w) = Throw (ExternalError rendered2).
Proof.
  intros P paths key w rendered rendered2 expanded made packed cleaned
         Hpaths Hkey Hexp Hmade Hpacked Hcleaned.
  subst expanded made packed cleaned.
  rewrite saveCache_packs by assumption.
  destruct (fs_mkdir P (getCacheDirPath P) (fs w)) as [r disk0] eqn:Emk.
  cbn [fst snd] in *. subst r.
  destruct (exec P (pack_cmd P key (flat_map (expansion_of P (fs w)) paths)) disk0)
    as [promise disk1] eqn:Etar.
  cbn [fst snd] in *.
  destruct (exec P (cleanup_cmd (bundle_path P key)) disk1)
    as [promise2 disk2] eqn:Erm.
  cbn [fst snd] in *.
  destruct (save_pack_tar_failure P key _
              (mkWorld (fs w)
                 (trace w ++ save_greeting paths
                    :: flat_map (expansion_events P (fs w)) paths))
              disk0 disk1 disk2 promise promise2 rendered Emk Etar Hpacked Erm)
    as (said & said' & ->).
  now rewrite Hcleaned.
Qed.

Lemma saveCache_cleanup_failure_raises_witness :
  let P := Sample.faulty "true" true true false in
  fst (saveCache P ["a.txt"] "k"
         (Sample.faulty_start "true" true true false Sample.broken_tar))
  = Throw (ExternalError
             ("Error: Command failed: " +++ cleanup_cmd (bundle_path P "k"))).
Proof.
  apply (saveCache_cleanup_failure_raises (Sample.faulty "true" true true false)
           ["a.txt"] "k"
           (Sample.faulty_start "true" true true false Sample.broken_tar)
           ("Error: Command failed: "
            +++ pack_cmd (Sample.faulty "true" true true false) "k" ["a.txt"]));
    try reflexivity; discriminate.
Defined.

(** X10.  When the store directory cannot be created, [saveCache] raises the
    error of [mkdir], also when failures are to be skipped, and starts
    no child process. *)
Theorem saveCache_mkdir_failure_raises :
  forall (P : Platform) (paths : list string) (key : string) (w : World P)
         (rendered : string),
    let made := fs_mkdir P (getCacheDirPath P) (fs w) in
    paths <> [] ->
    checkKey key = Ok tt ->
    flat_map (expansion_of P (fs w)) paths <> [] ->
    fst made = Failed rendered ->
    fst (saveCache P paths key w) = Throw (ExternalError rendered)
    /\ fs (snd (saveCache P paths key w)) = snd made
    /\ exists added,
         trace (snd (saveCache P paths key w)) = trace w ++ added
         /\ filter mutates added = [FsMkdir (getCacheDirPath P)].
Proof.
  intros P paths key w rendered made Hpaths Hkey Hexp Hmade. subst made.
  rewrite saveCache_packs by assumption.
  destruct (fs_mkdir P (getCacheDirPath P) (fs w)) as [r disk0] eqn:Emk.
  cbn [fst snd] in *. subst r.
  destruct (save_pack_mkdir_failure P key (flat_map (expansion_of P (fs w)) paths)
              (mkWorld (fs w)
                 (trace w ++ save_greeting paths
                    :: flat_map (expansion_events P (fs w)) paths))
              disk0 rendered Emk) as (said & ->).
  cbn [fst snd fs trace]. split; [reflexivity|]. split; [reflexivity|].
  eexists. split; [rewrite <- app_assoc; reflexivity|].
  cbn [app filter save_greeting mutates].
  rewrite filter_app, expansion_events_no_mutation. reflexivity.
Qed.

Lemma saveCache_mkdir_failure_raises_witness :
  let P := Sample.faulty "true" true false true in
  let w := Sample.faulty_start "true" true false true Sample.working_tar in
  fst (saveCache P ["a.txt"] "k" w)
  = Throw (ExternalError "Error: EACCES: permission denied, mkdir '/cache/repo'")
  /\ fs (snd (saveCache P ["a.txt"] "k" w))
     = snd (fs_mkdir P (getCacheDirPath P) (fs w))
  /\ exists added,
       trace (snd (saveCache P ["a.txt"] "k" w)) = trace w ++ added
       /\ filter mutates added = [FsMkdir (getCacheDirPath P)].
Proof.
  apply (saveCache_mkdir_failure_raises (Sample.faulty "true" true false true)
           ["a.txt"] "k"
           (Sample.faulty_start "true" true false true Sample.working_tar)
           "Error: EACCES: permission denied, mkdir '/cache/repo'");
    try reflexivity; discriminate.
Defined.

(* ------------------------------------------------------------------ *)
(** ** Outcomes of [restoreCache] *)

Lemma restore_lookup_hit_success (P : Platform) (primaryKey : string)
    (restoreKeys : option (list string)) (w : World P)
    (cacheFiles : list Entry) (key : string) (cacheFile : Entry)
    (disk1 : FS P) (promise : Promise) :
  fg_scan P (restore_patterns P primaryKey restoreKeys) (getCacheDirPath P) (fs w)
  = Done cacheFiles ->
  locateCacheFile (filenameMatchers_of P primaryKey restoreKeys) cacheFiles
  = Some (key, cacheFile) ->
  exec P (extract_cmd P cacheFile) (fs w) = (promise, disk1) ->
  settles promise = Done tt ->
  exists said,
    restore_lookup P primaryKey restoreKeys w
    = (Ok (Some key),
       mkWorld disk1
         (trace w
          ++ [FgScan (restore_patterns P primaryKey restoreKeys) (getCacheDirPath P);
              LogInfo said; LogInfo "Extracting cache to project root...";
              ExecCmd (extract_cmd P cacheFile)]
          ++ flat_map on_data (output promise)
          ++ [LogInfo "Cache restored successfully"])).
Proof.
  intros Hscan Hlocate Htar Hok.
  unfold restore_lookup. run_monad. cbn [fs trace].
  fold (restore_patterns P primaryKey restoreKeys).
  rewrite Hscan. cbn [settle]. rewrite Hlocate. cbn [fs trace].
  fold (extract_cmd P cacheFile).
  rewrite Htar. cbn [fs trace]. rewrite Hok. cbn [settle fs trace].
  eexists. rewrite <- !app_assoc. reflexivity.
Qed.

Lemma locateCacheFile_hit_candidate (filenameMatchers : list string)
    (cacheFiles : list Entry) (key : string) (cacheFile : Entry) :
  locateCacheFile filenameMatchers cacheFiles = Some (key, cacheFile) ->
  In key filenameMatchers.
Proof.
  unfold locateCacheFile.
  destruct (filterCacheFiles filenameMatchers cacheFiles) as [[k|] pcs] eqn:Hfilter.
  2: { cbn [key_falsy]. rewrite orb_true_r. discriminate. }
  destruct (filterCacheFiles_hit_shape _ _ _ _ Hfilter)
    as (earlier & later & -> & _).
  destruct ((List.length pcs =? 0)%nat || key_falsy (Some k)); [discriminate|].
  destruct (pop (sort by_mtime pcs)); [|discriminate].
  intros [= <- _]. apply in_or_app. right. now left.
Qed.

(** X11.  A restore whose matcher hits and whose [tar] succeeds returns the
    matched key, which is the [filenamify]-ed form of the primary key or
    of a fallback key and not the key as the caller wrote it.  The one
    [tar] on the selected bundle is all it did that can change the file
    system, which is left as [tar] left it; nothing is removed. *)
Theorem restoreCache_hit_success :
  forall (P : Platform) (paths : list string) (primaryKey : string)
         (restoreKeys : option (list string)) (w : World P)
         (cacheFiles : list Entry) (key : string) (cacheFile : Entry),
    let extracted := exec P (extract_cmd P cacheFile) (fs w) in
    checkKey primaryKey = Ok tt ->
    paths <> [] ->
    fg_scan P (restore_patterns P primaryKey restoreKeys) (getCacheDirPath P) (fs w)
    = Done cacheFiles ->
    locateCacheFile (filenameMatchers_of P primaryKey restoreKeys) cacheFiles
    = Some (key, cacheFile) ->
    settles (fst extracted) = Done tt ->
    fst (restoreCache P paths primaryKey restoreKeys w) = Ok (Some key)
    /\ In key (map (filenamify P)
                 (primaryKey :: match restoreKeys with
                                | Some fallbacks => fallbacks
                                | None => []
                                end))
    /\ fs (snd (restoreCache P paths primaryKey restoreKeys w)) = snd extracted
    /\ exists added,
         trace (snd (restoreCache P paths primaryKey restoreKeys w)) = trace w ++ added
         /\ filter mutates added = [ExecCmd (extract_cmd P cacheFile)].
Proof.
  intros P paths primaryKey restoreKeys w cacheFiles key cacheFile extracted
         Hkey Hpaths Hscan Hlocate Hok.
  subst extracted. rewrite restoreCache_valid by assumption.
  destruct (exec P (extract_cmd P cacheFile) (fs w)) as [promise disk1] eqn:Etar.
  cbn [fst snd] in *.
  destruct (restore_lookup_hit_success P primaryKey restoreKeys
              (mkWorld (fs w) (trace w ++ [restore_greeting paths]))
              cacheFiles key cacheFile disk1 promise Hscan Hlocate Etar Hok)
    as (said & ->).
  cbn [fst snd fs trace]. split; [reflexivity|]. split; [|split; [reflexivity|]].
  - apply locateCacheFile_hit_candidate in Hlocate.
    unfold filenameMatchers_of in Hlocate.
    destruct restoreKeys as [[|r rs]|]; exact Hlocate.
  - eexists. split; [rewrite <- app_assoc; reflexivity|].
    trace_facts. reflexivity.
Qed.

Lemma restoreCache_hit_success_witness :
  let P := Sample.platform "" in
  let w := Sample.start "" Sample.two_saves in
  let cacheFile := Sample.bundle "old.tar.zst" 7 in
  fst (restoreCache P ["a.txt"] "zz" (Some ["old"; "k"]) w) = Ok (Some "old")
  /\ In "old" (map (filenamify P) ("zz" :: ["old"; "k"]))
  /\ fs (snd (restoreCache P ["a.txt"] "zz" (Some ["old"; "k"]) w))
     = snd (exec P (extract_cmd P cacheFile) (fs w))
  /\ exists added,
       trace (snd (restoreCache P ["a.txt"] "zz" (Some ["old"; "k"]) w))
       = trace w ++ added
       /\ filter mutates added = [ExecCmd (extract_cmd P cacheFile)].
Proof.
  apply (restoreCache_hit_success (Sample.platform "") ["a.txt"] "zz"
           (Some ["old"; "k"]) (Sample.start "" Sample.two_saves)
           [Sample.bundle "k.tar.zst" 5; Sample.bundle "k-2.tar.zst" 9;
            Sample.bundle "old.tar.zst" 7]
           "old" (Sample.bundle "old.tar.zst" 7));
    try reflexivity; discriminate.
Defined.

(** X12.  With failures skipped, when [tar] fails and the removal of the
    bundle fails too, [restoreCache] raises the error of the removal:
    skipping failures does not cover the cleanup. *)
Theorem restoreCache_cleanup_failure_raises :
  forall (P : Platform) (paths : list string) (primaryKey : string)
         (restoreKeys : option (list string)) (w : World P)
         (cacheFiles : list Entry) (key : string) (cacheFile : Entry)
         (rendered rendered2 : string),
    let extracted := exec P (extract_cmd P cacheFile) (fs w) in
    let cleaned :=
      exec P (cleanup_cmd (path_join P (getCacheDirPath P) (path cacheFile)))
           (snd extracted) in
    skipFailure P = true ->
    checkKey primaryKey = Ok tt ->
    paths <> [] ->
    fg_scan P (restore_patterns P primaryKey restoreKeys) (getCacheDirPath P) (fs w)
    = Done cacheFiles ->
    locateCacheFile (filenameMatchers_of P primaryKey restoreKeys) cacheFiles
    = Some (key, cacheFile) ->
    settles (fst extracted) = Failed rendered ->
    settles (fst cleaned) = Failed rendered2 ->
    fst (restoreCache P paths primaryKey restoreKeys w)
    = Throw (ExternalError rendered2).
Proof.
  intros P paths primaryKey restoreKeys w cacheFiles key cacheFile
         rendered rendered2 extracted cleaned
         Hskip Hkey Hpaths Hscan Hlocate Hfail Hfail2.
  subst extracted cleaned. rewrite restoreCache_valid by assumption.
  destruct (exec P (extract_cmd P cacheFile) (fs w)) as [promise disk1] eqn:Etar.
  cbn [fst snd] in *.
  destruct (exec P (cleanup_cmd
                      (path_join P (getCacheDirPath P) (path cacheFile))) disk1)
    as [promise2 disk2] eqn:Erm.
  cbn [fst] in Hfail2.
  destruct (restore_lookup_tar_failure P primaryKey restoreKeys
              (mkWorld (fs w) (trace w ++ [restore_greeting paths]))
              cacheFiles key cacheFile disk1 disk2 promise promise2 rendered
              Hscan Hlocate Etar Hfail Erm) as (said & Hrun).
  cbv zeta in Hrun. now rewrite Hrun, Hskip, Hfail2.
Qed.

Lemma restoreCache_cleanup_failure_raises_witness :
  let P := Sample.faulty "true" true true false in
  fst (restoreCache P ["a.txt"] "k" None
         (Sample.faulty_start "true" true true false Sample.broken_tar))
  = Throw (ExternalError
             ("Error: Command failed: "
              +++ cleanup_cmd (path_join P (getCacheDirPath P)
                                 (path (Sample.bundle "k.tar.zst" 5))))).
Proof.
  apply (restoreCache_cleanup_failure_raises
           (Sample.faulty "true" true true false) ["a.txt"] "k" None
           (Sample.faulty_start "true" true true false Sample.broken_tar)
           [Sample.bundle "k.tar.zst" 5] "k" (Sample.bundle "k.tar.zst" 5)
           ("Error: Command failed: "
            +++ extract_cmd (Sample.faulty "true" true true false)
                  (Sample.bundle "k.tar.zst" 5)));
    try reflexivity; discriminate.
Defined.

(** X13.  When the scan of the store fails, [restoreCache] raises the error of
    the scan, also when failures are to be skipped; it has logged one
    line and tried the scan, and the file system is unchanged. *)
Theorem restoreCache_scan_failure_raises :
  forall (P : Platform) (paths : list string) (primaryKey : string)
         (restoreKeys : option (list string)) (w : World P) (rendered : string),
    checkKey primaryKey = Ok tt ->
    paths <> [] ->
    fg_scan P (restore_patterns P primaryKey restoreKeys) (getCacheDirPath P) (fs w)
    = Failed rendered ->
    restoreCache P paths primaryKey restoreKeys w
    = (Throw (ExternalError rendered),
       mkWorld (fs w)
         (trace w ++ [restore_greeting paths;
                      FgScan (restore_patterns P primaryKey restoreKeys)
                             (getCacheDirPath P)])).
Proof.
  intros P paths primaryKey restoreKeys w rendered Hkey Hpaths Hscan.
  rewrite restoreCache_valid by assumption.
  pose proof (restore_lookup_run P primaryKey restoreKeys
                (mkWorld (fs w) (trace w ++ [restore_greeting paths]))) as Hrun.
  cbn [fs trace] in Hrun. cbv zeta in Hrun. rewrite Hscan in Hrun.
  rewrite Hrun. now rewrite <- app_assoc.
Qed.

Lemma restoreCache_scan_failure_raises_witness :
  let P := Sample.faulty "true" false true true in
  let w := Sample.faulty_start "true" false true true Sample.working_tar in
  restoreCache P ["a.txt"] "k" (Some ["old"]) w
  = (Throw (ExternalError
              "Error: EACCES: permission denied, scandir '/cache/repo'"),
     mkWorld (fs w)
       (trace w ++ [restore_greeting ["a.txt"];
                    FgScan (restore_patterns P "k" (Some ["old"]))
                           (getCacheDirPath P)])).
Proof.
  apply (restoreCache_scan_failure_raises (Sample.faulty "true" false true true)
           ["a.txt"] "k" (Some ["old"])
           (Sample.faulty_start "true" false true true Sample.working_tar)
           "Error: EACCES: permission denied, scandir '/cache/repo'");
    try reflexivity; discriminate.
Defined.

Lemma filenameMatchers_of_head (P : Platform) (primaryKey : string)
    (restoreKeys : option (list string)) :
  exists fallbacks,
    filenameMatchers_of P primaryKey restoreKeys
    = filenamify P primaryKey :: fallbacks.
Proof.
  unfold filenameMatchers_of.
  destruct restoreKeys as [[|r rs]|]; cbn [map]; eexists; reflexivity.
Qed.

Lemma filter_contains_empty (cacheFiles : list Entry) :
  filter (name_contains "") cacheFiles = cacheFiles.
Proof.
  induction cacheFiles as [|e l IH]; [reflexivity|].
  cbn [filter]. rewrite (proj2 (name_contains_iff "" e) (is_substring_empty _)).
  now rewrite IH.
Qed.

Lemma locateCacheFile_empty_first (fallbacks : list string)
    (cacheFiles : list Entry) :
  locateCacheFile ("" :: fallbacks) cacheFiles = None.
Proof.
  unfold locateCacheFile. rewrite filterCacheFiles_cons, filter_contains_empty.
  destruct cacheFiles as [|e l].
  - assert (H : filterCacheFiles fallbacks [] = (None, [])).
    { apply filterCacheFiles_no_match. intros c e _ []. }
    now rewrite H.
  - cbn [key_falsy truthy negb]. now rewrite orb_true_r.
Qed.

(** X14.  A primary key that [filenamify] turns into the empty string never
    hits, whatever the store holds and whatever the fallback keys are:
    [restoreCache] logs one line, scans the store and returns the absent
    result (or raises the error of the scan), starting no child
    process. *)
Theorem restoreCache_empty_primary_never_hits :
  forall (P : Platform) (paths : list string) (primaryKey : string)
         (restoreKeys : option (list string)) (w : World P),
    checkKey primaryKey = Ok tt ->
    paths <> [] ->
    filenamify P primaryKey = "" ->
    snd (restoreCache P paths primaryKey restoreKeys w)
    = mkWorld (fs w)
        (trace w ++ [restore_greeting paths;
                     FgScan (restore_patterns P primaryKey restoreKeys)
                            (getCacheDirPath P)])
    /\ (fst (restoreCache P paths primaryKey restoreKeys w) = Ok None
        \/ exists rendered,
             fg_scan P (restore_patterns P primaryKey restoreKeys)
                     (getCacheDirPath P) (fs w) = Failed rendered
             /\ fst (restoreCache P paths primaryKey restoreKeys w)
                = Throw (ExternalError rendered)).
Proof.
  intros P paths primaryKey restoreKeys w Hkey Hpaths Hempty.
  rewrite restoreCache_valid by assumption.
  pose proof (restore_lookup_run P primaryKey restoreKeys
                (mkWorld (fs w) (trace w ++ [restore_greeting paths]))) as Hrun.
  cbn [fs trace] in Hrun. cbv zeta in Hrun.
  destruct (filenameMatchers_of_head P primaryKey restoreKeys) as [fallbacks Hms].
  rewrite Hms, Hempty in Hrun.
  destruct (fg_scan P (restore_patterns P primaryKey restoreKeys)
                    (getCacheDirPath P) (fs w)) as [cacheFiles|rendered].
  - rewrite locateCacheFile_empty_first in Hrun. rewrite Hrun. cbn [fst snd].
    rewrite <- app_assoc. split; [reflexivity | now left].
  - rewrite Hrun. cbn [fst snd]. rewrite <- app_assoc.
    split; [reflexivity | right; eauto].
Qed.

Lemma restoreCache_empty_primary_never_hits_witness :
  let P := Sample.platform "" in
  let w := Sample.start "" Sample.two_saves in
  snd (restoreCache P ["a.txt"] "" (Some ["k"; "old"]) w)
  = mkWorld (fs w)
      (trace w ++ [restore_greeting ["a.txt"];
                   FgScan (restore_patterns P "" (Some ["k"; "old"]))
                          (getCacheDirPath P)])
  /\ (fst (restoreCache P ["a.txt"] "" (Some ["k"; "old"]) w) = Ok None
      \/ exists rendered,
           fg_scan P (restore_patterns P "" (Some ["k"; "old"]))
                   (getCacheDirPath P) (fs w) = Failed rendered
           /\ fst (restoreCache P ["a.txt"] "" (Some ["k"; "old"]) w)
              = Throw (ExternalError rendered)).
Proof.
  apply (restoreCache_empty_primary_never_hits (Sample.platform "") ["a.txt"] ""
           (Some ["k"; "old"]) (Sample.start "" Sample.two_saves));
    try reflexivity; discriminate.
Defined.

(** X16.  The two operations validate in opposite orders.  Called with no
    path and a key [checkKey] rejects, [saveCache] reports the missing
    paths and [restoreCache] reports the key; and a key that is both too
    long and holds a comma is reported as too long. *)
Theorem validation_order :
  forall (P : Platform) (key : string) (restoreKeys : option (list string))
         (w : World P),
    checkKey key <> Ok tt ->
    fst (saveCache P [] key w)
    = Throw (ValidationError
        "Path Validation Error: At least one directory or file path is required")
    /\ (exists m,
          checkKey key = Throw (ValidationError m)
          /\ fst (restoreCache P [] key restoreKeys w) = Throw (ValidationError m))
    /\ ((255 < String.length key)%nat ->
        checkKey key
        = Throw (ValidationError
            ("Key Validation Error: " +++ key
             +++ " cannot be larger than 255 characters."))).
Proof.
  intros P key restoreKeys w Hbad. split; [reflexivity|]. split.
  - destruct (checkKey_cases key) as [Hok|[m Hm]]; [contradiction|].
    exists m. split; [exact Hm|].
    now rewrite (restoreCache_invalid_key _ _ _ _ _ _ Hm).
  - intros Hlong. unfold checkKey.
    destruct (Nat.ltb_spec 255 (String.length key)); [reflexivity | lia].
Qed.

Lemma validation_order_witness :
  let P := Sample.platform "" in
  let w := Sample.start "" Sample.working_tar in
  let key := string_of_list_ascii (repeat ","%char 256) in
  fst (saveCache P [] key w)
  = Throw (ValidationError
      "Path Validation Error: At least one directory or file path is required")
  /\ (exists m,
        checkKey key = Throw (ValidationError m)
        /\ fst (restoreCache P [] key (Some ["k"]) w) = Throw (ValidationError m))
  /\ ((255 < String.length key)%nat ->
      checkKey key
      = Throw (ValidationError
          ("Key Validation Error: " +++ key
           +++ " cannot be larger than 255 characters."))).
Proof.
  apply (validation_order (Sample.platform "")
           (string_of_list_ascii (repeat ","%char 256)) (Some ["k"])
           (Sample.start "" Sample.working_tar)).
  vm_compute. discriminate.
Defined.

(* ------------------------------------------------------------------ *)
(** ** The order of the scan *)

Lemma locateCacheFile_hit_inv (filenameMatchers : list string)
    (cacheFiles : list Entry) (key : string) (cacheFile : Entry) :
  locateCacheFile filenameMatchers cacheFiles = Some (key, cacheFile) ->
  key <> ""
  /\ exists potentialCaches,
       filterCacheFiles filenameMatchers cacheFiles = (Some key, potentialCaches)
       /\ pop (sort by_mtime potentialCaches) = Some cacheFile.
Proof.
  unfold locateCacheFile.
  destruct (filterCacheFiles filenameMatchers cacheFiles) as [[k|] pcs].
  2: { cbn [key_falsy]. rewrite orb_true_r. discriminate. }
  destruct pcs as [|p pcs']; [discriminate|]. cbn [List.length Nat.eqb orb].
  destruct k as [|c k]; [discriminate|]. cbn [key_falsy truthy negb].
  destruct (pop (sort by_mtime (p :: pcs'))) as [latest|] eqn:Hpop; [|discriminate].
  intros [= <- <-]. split; [discriminate|]. exists (p :: pcs'). auto.
Qed.

Lemma locateCacheFile_hit_intro (filenameMatchers : list string)
    (cacheFiles : list Entry) (key : string) (potentialCaches : list Entry)
    (cacheFile : Entry) :
  filterCacheFiles filenameMatchers cacheFiles = (Some key, potentialCaches) ->
  key <> "" ->
  pop (sort by_mtime potentialCaches) = Some cacheFile ->
  locateCacheFile filenameMatchers cacheFiles = Some (key, cacheFile).
Proof.
  intros Hfilter Hkey Hpop. unfold locateCacheFile. rewrite Hfilter, Hpop.
  pose proof (filterCacheFiles_hit_nonempty _ _ _ _ Hfilter) as Hne.
  destruct potentialCaches; [congruence|].
  destruct key; [congruence | reflexivity].
Qed.

Lemma locateCacheFile_hit_permuted (filenameMatchers : list string)
    (cacheFiles cacheFiles' : list Entry) (key : string) (cacheFile : Entry) :
  Permutation cacheFiles cacheFiles' ->
  locateCacheFile filenameMatchers cacheFiles = Some (key, cacheFile) ->
  exists cacheFile',
    locateCacheFile filenameMatchers cacheFiles' = Some (key, cacheFile')
    /\ mtime_or_0 cacheFile' = mtime_or_0 cacheFile.
Proof.
  intros Hperm Hhit.
  destruct (locateCacheFile_hit_inv _ _ _ _ Hhit) as (Hkey & pcs & Hfilter & Hpop).
  destruct (filterCacheFiles_hit_shape _ _ _ _ Hfilter)
    as (earlier & later & -> & Hearlier & Hpcs & Hne).
  destruct (pop_sort_some pcs Hne) as (latest & Hpop' & Hin & Hmax).
  assert (latest = cacheFile) by congruence. subst latest.
  assert (Hsame : forall c x, In x (filter (name_contains c) cacheFiles')
                              <-> In x (filter (name_contains c) cacheFiles)).
  { intros c x. rewrite !filter_In. split; intros [Hx Hc]; split; auto.
    - eapply Permutation_in; [apply Permutation_sym, Hperm | exact Hx].
    - eapply Permutation_in; [exact Hperm | exact Hx]. }
  assert (Hearlier' : forall c, In c earlier ->
                                filter (name_contains c) cacheFiles' = []).
  { intros c Hc. destruct (filter (name_contains c) cacheFiles') as [|x l] eqn:E;
      [reflexivity|].
    assert (Hx : In x (filter (name_contains c) cacheFiles))
      by (apply Hsame; rewrite E; now left).
    rewrite (Hearlier c Hc) in Hx. contradiction. }
  assert (Hne' : filter (name_contains key) cacheFiles' <> []).
  { intros E. rewrite Hpcs in Hin. apply Hsame in Hin. now rewrite E in Hin. }
  destruct (pop_sort_some _ Hne') as (latest' & Hpop'' & Hin' & Hmax').
  exists latest'. split.
  - apply (locateCacheFile_hit_intro _ _ _ (filter (name_contains key) cacheFiles'));
      auto.
    rewrite filterCacheFiles_skip by exact Hearlier'.
    rewrite filterCacheFiles_cons.
    destruct (filter (name_contains key) cacheFiles'); [congruence | reflexivity].
  - apply Z.le_antisymm.
    + apply Hmax. rewrite Hpcs. now apply Hsame.
    + apply Hmax'. apply Hsame. now rewrite <- Hpcs.
Qed.

(** X4.  The order in which the scan lists the store matters only among
    equally new bundles: on two scans with the same entries in different
    orders [locateCacheFile] misses on both or hits on both, with the
    same key and entries of the same modification time. *)
Theorem locateCacheFile_scan_order :
  forall (filenameMatchers : list string) (cacheFiles cacheFiles' : list Entry),
    Permutation cacheFiles cacheFiles' ->
    (locateCacheFile filenameMatchers cacheFiles = None ->
     locateCacheFile filenameMatchers cacheFiles' = None)
    /\ (forall key cacheFile,
          locateCacheFile filenameMatchers cacheFiles = Some (key, cacheFile) ->
          exists cacheFile',
            locateCacheFile filenameMatchers cacheFiles' = Some (key, cacheFile')
            /\ mtime_or_0 cacheFile' = mtime_or_0 cacheFile).
Proof.
  intros ms cacheFiles cacheFiles' Hperm. split.
  - intros Hmiss.
    destruct (locateCacheFile ms cacheFiles') as [[key' cacheFile']|] eqn:Hhit;
      [|reflexivity].
    destruct (locateCacheFile_hit_permuted ms cacheFiles' cacheFiles key' cacheFile'
                (Permutation_sym Hperm) Hhit) as (e & He & _).
    congruence.
  - intros key cacheFile. now apply locateCacheFile_hit_permuted.
Qed.

Lemma locateCacheFile_scan_order_witness :
  (locateCacheFile ["zz"; "k"] (Sample.bundles Sample.two_saves) = None ->
   locateCacheFile ["zz"; "k"] (rev (Sample.bundles Sample.two_saves)) = None)
  /\ (forall key cacheFile,
        locateCacheFile ["zz"; "k"] (Sample.bundles Sample.two_saves)
        = Some (key, cacheFile) ->
        exists cacheFile',
          locateCacheFile ["zz"; "k"] (rev (Sample.bundles Sample.two_saves))
          = Some (key, cacheFile')
          /\ mtime_or_0 cacheFile' = mtime_or_0 cacheFile).
Proof.
  apply (locateCacheFile_scan_order ["zz"; "k"] (Sample.bundles Sample.two_saves)
           (rev (Sample.bundles Sample.two_saves))).
  apply Permutation_rev.
Defined.

(* ------------------------------------------------------------------ *)
(** ** When failures are skipped *)

Lemma saveCache_tar_failure_run (P : Platform) (paths : list string) (key : string)
    (w : World P) (disk0 disk1 disk2 : FS P) (promise promise2 : Promise)
    (rendered : string) :
  paths <> [] ->
  checkKey key = Ok tt ->
  flat_map (expansion_of P (fs w)) paths <> [] ->
  fs_mkdir P (getCacheDirPath P) (fs w) = (Done tt, disk0) ->
  exec P (pack_cmd P key (flat_map (expansion_of P (fs w)) paths)) disk0
  = (promise, disk1) ->
  settles promise = Failed rendered ->
  exec P (cleanup_cmd (bundle_path P key)) disk1 = (promise2, disk2) ->
  settles promise2 = Done tt ->
  fst (saveCache P paths key w)
  = (if skipFailure P then Ok 420 else Throw (ExternalError rendered))
  /\ fs (snd (saveCache P paths key w)) = disk2
  /\ exists added,
       trace (snd (saveCache P paths key w)) = trace w ++ added
       /\ filter mutates added
          = [FsMkdir (getCacheDirPath P);
             ExecCmd (pack_cmd P key (flat_map (expansion_of P (fs w)) paths));
             ExecCmd (cleanup_cmd (bundle_path P key))].
Proof.
  intros Hpaths Hkey Hexp Emk Etar Hfail Erm Hclean.
  rewrite saveCache_packs by assumption.
  destruct (save_pack_tar_failure P key _
              (mkWorld (fs w)
                 (trace w ++ save_greeting paths
                    :: flat_map (expansion_events P (fs w)) paths))
              disk0 disk1 disk2 promise promise2 rendered Emk Etar Hfail Erm)
    as (said & said' & ->).
  rewrite Hclean. cbn [fst snd fs trace]. split; [reflexivity|].
  split; [reflexivity|].
  eexists. split; [rewrite <- app_assoc; reflexivity|].
  cbn [app filter save_greeting mutates].
  rewrite filter_app, expansion_events_no_mutation.
  trace_facts. reflexivity.
Qed.

Lemma restoreCache_tar_failure_skipped (P : Platform) (paths : list string)
    (primaryKey : string) (restoreKeys : option (list string)) (w : World P)
    (cacheFiles : list Entry) (key : string) (cacheFile : Entry)
    (disk1 disk2 : FS P) (promise promise2 : Promise) (rendered : string) :
  skipFailure P = true ->
  checkKey primaryKey = Ok tt ->
  paths <> [] ->
  fg_scan P (restore_patterns P primaryKey restoreKeys) (getCacheDirPath P) (fs w)
  = Done cacheFiles ->
  locateCacheFile (filenameMatchers_of P primaryKey restoreKeys) cacheFiles
  = Some (key, cacheFile) ->
  exec P (extract_cmd P cacheFile) (fs w) = (promise, disk1) ->
  settles promise = Failed rendered ->
  exec P (cleanup_cmd (path_join P (getCacheDirPath P) (path cacheFile))) disk1
  = (promise2, disk2) ->
  settles promise2 = Done tt ->
  fst (restoreCache P paths primaryKey restoreKeys w) = Ok (Some key)
  /\ fs (snd (restoreCache P paths primaryKey restoreKeys w)) = disk2
  /\ exists added,
       trace (snd (restoreCache P paths primaryKey restoreKeys w)) = trace w ++ added
       /\ filter mutates added
          = [ExecCmd (extract_cmd P cacheFile);
             ExecCmd (cleanup_cmd
                        (path_join P (getCacheDirPath P) (path cacheFile)))].
Proof.
  intros Hskip Hkey Hpaths Hscan Hlocate Etar Hfail Erm Hclean.
  rewrite restoreCache_valid by assumption.
  destruct (restore_lookup_tar_failure P primaryKey restoreKeys
              (mkWorld (fs w) (trace w ++ [restore_greeting paths]))
              cacheFiles key cacheFile disk1 disk2 promise promise2 rendered
              Hscan Hlocate Etar Hfail Erm) as (said & Hrun).
  cbv zeta in Hrun. rewrite Hrun, Hskip, Hclean. cbn [fst snd fs trace].
  split; [reflexivity|]. split; [reflexivity|].
  eexists. split; [rewrite <- !app_assoc; reflexivity|].
  trace_facts. reflexivity.
Qed.

(** What a returning [saveCache] tells: its arguments were valid, it ran
    [tar] on the expanded paths, and the number it returns is 420. *)
Lemma saveCache_ok_inv (P : Platform) (paths : list string) (key : string)
    (w : World P) (v : Z) :
  fst (saveCache P paths key w) = Ok v ->
  paths <> []
  /\ checkKey key = Ok tt
  /\ v = 420
  /\ In (ExecCmd (pack_cmd P key (flat_map (expansion_of P (fs w)) paths)))
        (trace (snd (saveCache P paths key w))).
Proof.
  intros Hok.
  destruct (checkKey_cases key) as [Hkey|Hthrow].
  2: { apply checkKey_throws_iff in Hthrow.
       destruct (saveCache_invalid P paths key w (or_intror Hthrow)) as [m Hm].
       rewrite Hm in Hok. discriminate. }
  destruct paths as [|p paths'] eqn:Epaths.
  { destruct (saveCache_invalid P [] key w (or_introl eq_refl)) as [m Hm].
    rewrite Hm in Hok. discriminate. }
  rewrite <- Epaths in *.
  assert (Hpaths : paths <> []) by (subst; discriminate).
  clear Epaths p paths'.
  split; [exact Hpaths|]. split; [exact Hkey|].
  revert Hok. rewrite saveCache_valid by assumption. cbv zeta.
  destruct (flat_map (expansion_of P (fs w)) paths) as [|x xs] eqn:Eexp;
    [discriminate|].
  set (w' := mkWorld (fs w)
               (trace w ++ save_greeting paths
                  :: flat_map (expansion_events P (fs w)) paths)).
  destruct (fs_mkdir P (getCacheDirPath P) (fs w)) as [[[]|rendered] disk0] eqn:Emk.
  2: { destruct (save_pack_mkdir_failure P key (x :: xs) w' disk0 rendered Emk)
         as (said & ->). discriminate. }
  destruct (exec P (pack_cmd P key (x :: xs)) disk0) as [promise disk1] eqn:Etar.
  destruct (settles promise) as [[]|rendered] eqn:Esettle.
  - destruct (save_pack_tar_success_run P key (x :: xs) w' disk0 disk1 promise
                Emk Etar Esettle) as (said & said' & said'' & ->).
    cbn [fst snd trace]. intros [= <-]. split; [reflexivity|].
    apply in_or_app. right. apply in_or_app. left. simpl. auto.
  - destruct (exec P (cleanup_cmd (bundle_path P key)) disk1)
      as [promise2 disk2] eqn:Erm.
    destruct (save_pack_tar_failure P key (x :: xs) w' disk0 disk1 disk2
                promise promise2 rendered Emk Etar Esettle Erm)
      as (said & said' & ->).
    cbn [fst snd trace]. intros Hres. split.
    + destruct (settles promise2); [|discriminate].
      destruct (skipFailure P); [|discriminate]. now injection Hres.
    + apply in_or_app. right. apply in_or_app. left. simpl. auto.
Qed.

(** C4, as the code has it.  When failures are skipped and the archive
    tool fails, [rm -rf] is run on the path of the bundle and, that
    command succeeding, the failure is swallowed and the operation does
    not raise.  For [saveCache] (first part) the effects that can change
    the file system are then exactly [mkdir], [tar], [rm -rf], and the
    result is 420; for [restoreCache] (second part) they are exactly
    [tar], [rm -rf].  In both the file system is left as the [rm -rf]
    command left it.  420 is also what [saveCache] returns when [tar]
    succeeds (third part), and it is the only number [saveCache] ever
    returns (fourth part). *)
Theorem skipFailure_swallows_tar_failure :
  (forall (P : Platform) (paths : list string) (key : string) (w : World P)
          (rendered : string),
      let expanded := flat_map (expansion_of P (fs w)) paths in
      let made := fs_mkdir P (getCacheDirPath P) (fs w) in
      let packed := exec P (pack_cmd P key expanded) (snd made) in
      let cleaned := exec P (cleanup_cmd (bundle_path P key)) (snd packed) in
      skipFailure P = true ->
      paths <> [] ->
      checkKey key = Ok tt ->
      expanded <> [] ->
      fst made = Done tt ->
      settles (fst packed) = Failed rendered ->
      settles (fst cleaned) = Done tt ->
      fst (saveCache P paths key w) = Ok 420
      /\ fs (snd (saveCache P paths key w)) = snd cleaned
      /\ exists added,
           trace (snd (saveCache P paths key w)) = trace w ++ added
           /\ filter mutates added
              = [FsMkdir (getCacheDirPath P); ExecCmd (pack_cmd P key expanded);
                 ExecCmd (cleanup_cmd (bundle_path P key))])
  /\ (forall (P : Platform) (paths : list string) (primaryKey : string)
             (restoreKeys : option (list string)) (w : World P)
             (cacheFiles : list Entry) (hit : string) (cacheFile : Entry)
             (rendered : string),
      let bundle := path_join P (getCacheDirPath P) (path cacheFile) in
      let extracted := exec P (extract_cmd P cacheFile) (fs w) in
      let cleaned := exec P (cleanup_cmd bundle) (snd extracted) in
      skipFailure P = true ->
      checkKey primaryKey = Ok tt ->
      paths <> [] ->
      fg_scan P (restore_patterns P primaryKey restoreKeys) (getCacheDirPath P) (fs w)
      = Done cacheFiles ->
      locateCacheFile (filenameMatchers_of P primaryKey restoreKeys) cacheFiles
      = Some (hit, cacheFile) ->
      settles (fst extracted) = Failed rendered ->
      settles (fst cleaned) = Done tt ->
      (exists outcome,
          fst (restoreCache P paths primaryKey restoreKeys w) = Ok outcome)
      /\ fs (snd (restoreCache P paths primaryKey restoreKeys w)) = snd cleaned
      /\ exists added,
           trace (snd (restoreCache P paths primaryKey restoreKeys w))
           = trace w ++ added
           /\ filter mutates added
              = [ExecCmd (extract_cmd P cacheFile); ExecCmd (cleanup_cmd bundle)])
  /\ (forall (P : Platform) (paths : list string) (key : string) (w : World P),
      let expanded := flat_map (expansion_of P (fs w)) paths in
      let made := fs_mkdir P (getCacheDirPath P) (fs w) in
      let packed := exec P (pack_cmd P key expanded) (snd made) in
      paths <> [] ->
      checkKey key = Ok tt ->
      expanded <> [] ->
      fst made = Done tt ->
      settles (fst packed) = Done tt ->
      fst (saveCache P paths key w) = Ok 420)
  /\ (forall (P : Platform) (paths : list string) (key : string) (w : World P)
             (v : Z),
      fst (saveCache P paths key w) = Ok v -> v = 420).
Proof.
  split; [|split; [|split]].
  - intros P paths key w rendered expanded made packed cleaned
           Hskip Hpaths Hkey Hexp Hmade Hpacked Hcleaned.
    subst expanded made packed cleaned.
    destruct (fs_mkdir P (getCacheDirPath P) (fs w)) as [r disk0] eqn:Emk.
    cbn [fst snd] in *. subst r.
    destruct (exec P (pack_cmd P key (flat_map (expansion_of P (fs w)) paths)) disk0)
      as [promise disk1] eqn:Etar.
    cbn [fst snd] in *.
    destruct (exec P (cleanup_cmd (bundle_path P key)) disk1)
      as [promise2 disk2] eqn:Erm.
    cbn [fst snd] in *.
    destruct (saveCache_tar_failure_run P paths key w disk0 disk1 disk2
                promise promise2 rendered Hpaths Hkey Hexp Emk Etar Hpacked Erm
                Hcleaned) as (Hres & Hfs & Htrace).
    rewrite Hskip in Hres. auto.
  - intros P paths primaryKey restoreKeys w cacheFiles hit cacheFile rendered
           bundle extracted cleaned Hskip Hkey Hpaths Hscan Hlocate Hfail Hcleaned.
    subst bundle extracted cleaned.
    destruct (exec P (extract_cmd P cacheFile) (fs w)) as [promise disk1] eqn:Etar.
    cbn [fst snd] in *.
    destruct (exec P (cleanup_cmd
                        (path_join P (getCacheDirPath P) (path cacheFile))) disk1)
      as [promise2 disk2] eqn:Erm.
    cbn [fst snd] in *.
    destruct (restoreCache_tar_failure_skipped P paths primaryKey restoreKeys w
                cacheFiles hit cacheFile disk1 disk2 promise promise2 rendered
                Hskip Hkey Hpaths Hscan Hlocate Etar Hfail Erm Hcleaned)
      as (Hres & Hfs & Htrace).
    split; [eauto|]. auto.
  - intros P paths key w expanded made packed Hpaths Hkey Hexp Hmade Hpacked.
    subst expanded made packed.
    rewrite saveCache_packs by assumption.
    destruct (fs_mkdir P (getCacheDirPath P) (fs w)) as [r disk0] eqn:Emk.
    cbn [fst snd] in *. subst r.
    destruct (exec P (pack_cmd P key (flat_map (expansion_of P (fs w)) paths)) disk0)
      as [promise disk1] eqn:Etar.
    cbn [fst snd] in *.
    exact (proj1 (save_pack_tar_success P key _
                    (mkWorld (fs w)
                       (trace w ++ save_greeting paths
                          :: flat_map (expansion_events P (fs w)) paths))
                    disk0 disk1 promise Emk Etar Hpacked)).
  - intros P paths key w v Hok.
    now destruct (saveCache_ok_inv P paths key w v Hok) as (_ & _ & Hv & _).
Qed.

Lemma skipFailure_swallows_tar_failure_witness :
  let P := Sample.platform "true" in
  let fresh := Sample.start "true" Sample.fresh_store in
  let clean := Sample.start "true" Sample.clean_tree in
  let working := Sample.start "true" Sample.working_tar in
  let cacheFile := Sample.bundle "k.tar.zst" 5 in
  let bundle := path_join P (getCacheDirPath P) (path cacheFile) in
  (fst (saveCache P ["a.txt"; "dir"] "k" fresh) = Ok 420
   /\ fs (snd (saveCache P ["a.txt"; "dir"] "k" fresh))
      = snd (exec P (cleanup_cmd (bundle_path P "k"))
               (snd (exec P (pack_cmd P "k"
                               (flat_map (expansion_of P (fs fresh)) ["a.txt"; "dir"]))
                       (snd (fs_mkdir P (getCacheDirPath P) (fs fresh))))))
   /\ exists added,
        trace (snd (saveCache P ["a.txt"; "dir"] "k" fresh)) = trace fresh ++ added
        /\ filter mutates added
           = [FsMkdir (getCacheDirPath P);
              ExecCmd (pack_cmd P "k"
                         (flat_map (expansion_of P (fs fresh)) ["a.txt"; "dir"]));
              ExecCmd (cleanup_cmd (bundle_path P "k"))])
  /\ ((exists outcome, fst (restoreCache P ["a.txt"] "k" None clean) = Ok outcome)
      /\ fs (snd (restoreCache P ["a.txt"] "k" None clean))
         = snd (exec P (cleanup_cmd bundle)
                  (snd (exec P (extract_cmd P cacheFile) (fs clean))))
      /\ exists added,
           trace (snd (restoreCache P ["a.txt"] "k" None clean)) = trace clean ++ added
           /\ filter mutates added
              = [ExecCmd (extract_cmd P cacheFile); ExecCmd (cleanup_cmd bundle)])
  /\ fst (saveCache P ["a.txt"] "k" working) = Ok 420.
Proof.
  split; [|split].
  - apply (proj1 skipFailure_swallows_tar_failure (Sample.platform "true")
             ["a.txt"; "dir"] "k" (Sample.start "true" Sample.fresh_store)
             ("Error: Command failed: "
              +++ pack_cmd (Sample.platform "true") "k" ["a.txt"; "dir"]));
      try reflexivity; discriminate.
  - apply (proj1 (proj2 skipFailure_swallows_tar_failure) (Sample.platform "true")
             ["a.txt"] "k" None (Sample.start "true" Sample.clean_tree)
             [Sample.bundle "k.tar.zst" 5] "k" (Sample.bundle "k.tar.zst" 5)
             ("Error: Command failed: "
              +++ extract_cmd (Sample.platform "true") (Sample.bundle "k.tar.zst" 5)));
      try reflexivity; discriminate.
  - apply (proj1 (proj2 (proj2 skipFailure_swallows_tar_failure))
             (Sample.platform "true") ["a.txt"] "k"
             (Sample.start "true" Sample.working_tar));
      try reflexivity; discriminate.
Defined.

(* ------------------------------------------------------------------ *)
(** ** Save, then restore *)

Lemma Stats_eq_dec (a b : Stats) : {a = b} + {a <> b}.
Proof.
  decide equality; auto using Z.eq_dec, string_dec, bool_dec.
Qed.

Lemma Entry_eq_dec (a b : Entry) : {a = b} + {a <> b}.
Proof.
  decide equality; auto using string_dec.
  decide equality; auto using Stats_eq_dec.
Qed.

(** Among the entries containing a key, one that is strictly newer than
    all the others is the one [locateCacheFile] selects for that key as
    first candidate. *)
Lemma locateCacheFile_strictly_newest (key : string) (fallbacks : list string)
    (cacheFiles : list Entry) (saved : Entry) :
  key <> "" ->
  In saved cacheFiles ->
  is_substring key (name saved) ->
  (forall e, In e cacheFiles -> e <> saved -> is_substring key (name e) ->
             mtime_or_0 e < mtime_or_0 saved) ->
  locateCacheFile (key :: fallbacks) cacheFiles = Some (key, saved).
Proof.
  intros Hkey Hsaved Hcontains Hnewest.
  assert (Hhits : In saved (filter (name_contains key) cacheFiles)).
  { apply filter_In. split; [exact Hsaved | now apply name_contains_iff]. }
  destruct (filter (name_contains key) cacheFiles) as [|h hits] eqn:Efilter;
    [contradiction|].
  destruct (pop_sort_some (h :: hits)) as (latest & Hpop & Hin & Hmax);
    [discriminate|].
  assert (latest = saved).
  { destruct (Entry_eq_dec latest saved) as [Heq|Hne]; [exact Heq|].
    rewrite <- Efilter in Hin. apply filter_In in Hin as [Hin Hc].
    apply name_contains_iff in Hc.
    specialize (Hnewest latest Hin Hne Hc). specialize (Hmax saved Hhits). lia. }
  subst latest.
  apply (locateCacheFile_hit_intro _ _ _ (h :: hits)); auto.
  now rewrite filterCacheFiles_cons, Efilter.
Qed.

(** X15.  Save, then restore.  If [saveCache] returned for some paths
    and a key, then [restoreCache] with the same paths and this key as
    primary key, run in the world [saveCache] left, passes validation;
    and if its scan of the store lists the bundle of the key
    ([filenamify(key) + ".tar.zst"], directly in the store directory) as
    strictly the newest entry whose name contains [filenamify(key)], the
    file it unpacks with [tar -xf] is the very file [saveCache] packed
    with [tar -cf], with the same base directory, and it returns
    [filenamify(key)] unless an external command fails. *)
Theorem saveCache_then_restoreCache_same_bundle :
  forall (P : Platform) (paths : list string) (key : string)
         (restoreKeys : option (list string)) (w : World P) (v : Z)
         (cacheFiles : list Entry) (saved : Entry),
    let saved_world := snd (saveCache P paths key w) in
    let restored := restoreCache P paths key restoreKeys saved_world in
    let bundle :=
      path_join P (getCacheDirPath P) (filenamify P key +++ ".tar.zst") in
    let quoted := fun p => dquote +++ p +++ dquote in
    fst (saveCache P paths key w) = Ok v ->
    filenamify P key <> "" ->
    fg_scan P (restore_patterns P key restoreKeys) (getCacheDirPath P)
            (fs saved_world)
    = Done cacheFiles ->
    In saved cacheFiles ->
    path saved = filenamify P key +++ ".tar.zst" ->
    name saved = path saved ->
    (forall e, In e cacheFiles -> e <> saved ->
               is_substring (filenamify P key) (name e) ->
               mtime_or_0 e < mtime_or_0 saved) ->
    In (ExecCmd ("tar -I zstdmt -cf " +++ quoted bundle
                 +++ " -C " +++ quoted (cwd P) +++ " "
                 +++ join " " (map quoted (flat_map (expansion_of P (fs w)) paths))))
       (trace saved_world)
    /\ (exists added,
          trace (snd restored) = trace saved_world ++ added
          /\ In (ExecCmd ("tar -I zstdmt -xf " +++ quoted bundle
                          +++ " -C " +++ quoted (cwd P)))
                added)
    /\ (fst restored = Ok (Some (filenamify P key))
        \/ exists rendered, fst restored = Throw (ExternalError rendered)).
Proof.
  intros P paths key restoreKeys w v cacheFiles saved saved_world restored
         bundle quoted Hsave Hnonempty Hscan Hsaved Hpath Hname Hnewest.
  destruct (saveCache_ok_inv P paths key w v Hsave)
    as (Hpaths & Hkey & _ & Hpacked).
  split.
  { unfold pack_cmd, bundle_path in Hpacked.
    subst saved_world bundle quoted. cbv beta.
    rewrite !append_assoc_str. exact Hpacked. }
  destruct (filenameMatchers_of_head P key restoreKeys) as [fallbacks Hms].
  assert (Hlocate : locateCacheFile (filenameMatchers_of P key restoreKeys) cacheFiles
                    = Some (filenamify P key, saved)).
  { rewrite Hms. apply locateCacheFile_strictly_newest; auto.
    rewrite Hname, Hpath. now exists "", ".tar.zst". }
  subst restored. rewrite restoreCache_valid by assumption.
  pose proof (restore_lookup_run P key restoreKeys
                (mkWorld (fs saved_world)
                   (trace saved_world ++ [restore_greeting paths]))) as Hrun.
  cbn [fs trace] in Hrun. cbv zeta in Hrun.
  rewrite Hscan, Hlocate in Hrun.
  destruct Hrun as [(said & rest & Htrace) Hres]. split; [|exact Hres].
  eexists. split; [rewrite Htrace, <- app_assoc; reflexivity|].
  unfold extract_cmd. rewrite Hpath.
  subst bundle quoted. cbv beta. rewrite !append_assoc_str.
  simpl. auto 10.
Qed.

Lemma saveCache_then_restoreCache_same_bundle_witness :
  let P := Sample.platform "" in
  let w := Sample.start "" Sample.after_save in
  let saved_world := snd (saveCache P ["a.txt"; "dir"] "k" w) in
  let restored := restoreCache P ["a.txt"; "dir"] "k" (Some ["old"]) saved_world in
  let bundle := path_join P (getCacheDirPath P) (filenamify P "k" +++ ".tar.zst") in
  let quoted := fun p => dquote +++ p +++ dquote in
  In (ExecCmd ("tar -I zstdmt -cf " +++ quoted bundle
               +++ " -C " +++ quoted (cwd P) +++ " "
               +++ join " " (map quoted
                               (flat_map (expansion_of P (fs w)) ["a.txt"; "dir"]))))
     (trace saved_world)
  /\ (exists added,
        trace (snd restored) = trace saved_world ++ added
        /\ In (ExecCmd ("tar -I zstdmt -xf " +++ quoted bundle
                        +++ " -C " +++ quoted (cwd P)))
              added)
  /\ (fst restored = Ok (Some (filenamify P "k"))
      \/ exists rendered, fst restored = Throw (ExternalError rendered)).
Proof.
  apply (saveCache_then_restoreCache_same_bundle (Sample.platform "")
           ["a.txt"; "dir"] "k" (Some ["old"]) (Sample.start "" Sample.after_save)
           420 (Sample.bundles Sample.after_save) (Sample.bundle "k.tar.zst" 9)).
  - reflexivity.
  - discriminate.
  - reflexivity.
  - right. now left.
  - reflexivity.
  - reflexivity.
  - intros e [<-|[<-|[<-|[]]]] Hne Hs.
    + reflexivity.
    + now elim Hne.
    + apply name_contains_iff in Hs. discriminate Hs.
Defined.
